(** * Orderflow volume clusters: the trade store, the cluster aggregator and
    the backfill orchestrator of [server/index.js]

    The development follows the source file top-down:
    - [Num]: JavaScript numbers as the handlers use them
      (arithmetic, [Math.round], comparison, truthiness);
    - [Text]: numeric literals, for [Number(..)] and [parseFloat(..)];
    - [Js]: JSON values, property access, conversion to a number, the
      [||] operator;
    - [Store]: the [trades] table and [insertTrade];
    - [Aggregator]: [computeClusters] and the [GET /api/top-clusters] handler;
    - [Backfill]: the connectors, [pRetry], and the [POST /api/backfill]
      handler, over an explicit world (database, clock, network, log);
    - [Terms], [Run], [Scenario]: the vocabulary of the statements and
      the concrete runs they are tried on.
    The properties come after the definitions, in the same order.

    Numbers.  A finite JavaScript number is modelled by the rational it
    denotes; [NaN] and the two infinities are kept apart.  Rounding error
    of IEEE-754 doubles, overflow and the sign of zero are outside the
    model.  Strings are byte strings.

    Storage.  The table is a list of rows in insertion order, and a
    query returns the selected rows in that order. *)

From Stdlib Require Import ZArith QArith Qround Qabs Qreduction Qminmax.
From Stdlib Require Import List String Ascii Bool Lia Lqa.
From Stdlib Require Import DecimalString DecimalPos DecimalN.
From Stdlib Require Import Sorting.Sorted Sorting.Permutation.
Import ListNotations.

Set Implicit Arguments.
Set Warnings "-register-all".

(* ------------------------------------------------------------------ *)
(** ** JavaScript numbers *)

Module Num.

Inductive JsNum : Type :=
| NaN
| PInf
| NInf
| Fin (q : Q).

Definition of_Z (z : Z) : JsNum := Fin (inject_Z z).

Definition qzero (q : Q) : bool := Qeq_bool q 0.
Definition qpos (q : Q) : bool := negb (Qle_bool q 0).
Definition qneg (q : Q) : bool := negb (Qle_bool 0 q).

(** Unary minus. *)
Definition neg (x : JsNum) : JsNum :=
  match x with
  | NaN => NaN
  | PInf => NInf
  | NInf => PInf
  | Fin q => Fin (Qred (- q))
  end.

(** [x + y]. *)
Definition add (x y : JsNum) : JsNum :=
  match x, y with
  | NaN, _ | _, NaN => NaN
  | PInf, NInf | NInf, PInf => NaN
  | PInf, _ | _, PInf => PInf
  | NInf, _ | _, NInf => NInf
  | Fin a, Fin b => Fin (Qred (a + b))
  end.

(** [x - y]. *)
Definition sub (x y : JsNum) : JsNum := add x (neg y).

(** The infinity of the given sign ([true] is negative). *)
Definition inf (negative : bool) : JsNum := if negative then NInf else PInf.

(** [x * y]. *)
Definition mul (x y : JsNum) : JsNum :=
  match x, y with
  | NaN, _ | _, NaN => NaN
  | Fin a, Fin b => Fin (Qred (a * b))
  | Fin a, PInf | PInf, Fin a =>
      if qzero a then NaN else inf (qneg a)
  | Fin a, NInf | NInf, Fin a =>
      if qzero a then NaN else inf (qpos a)
  | PInf, PInf | NInf, NInf => PInf
  | PInf, NInf | NInf, PInf => NInf
  end.

(** [x / y].  A finite non-zero number divided by zero is an infinity of
    the sign of the dividend (the divisor is taken as [+0]). *)
Definition div (x y : JsNum) : JsNum :=
  match x, y with
  | NaN, _ | _, NaN => NaN
  | Fin a, Fin b =>
      if qzero b then (if qzero a then NaN else inf (qneg a))
      else Fin (Qred (a / b))
  | Fin _, (PInf | NInf) => Fin 0
  | (PInf | NInf), (PInf | NInf) => NaN
  | PInf, Fin b => inf (qneg b)
  | NInf, Fin b => inf (negb (qneg b))
  end.

(** [Math.round]: the nearest integer, a tie going towards [+Infinity]. *)
Definition round (x : JsNum) : JsNum :=
  match x with
  | Fin q => of_Z (Qfloor (q + (1 # 2)))
  | _ => x
  end.

(** [x < y]; false as soon as one side is [NaN]. *)
Definition lt (x y : JsNum) : bool :=
  match x, y with
  | NaN, _ | _, NaN => false
  | _, NInf => false
  | PInf, _ => false
  | NInf, _ => true
  | _, PInf => true
  | Fin a, Fin b => negb (Qle_bool b a)
  end.

(** [x >= y]; false as soon as one side is [NaN]. *)
Definition ge (x y : JsNum) : bool :=
  match x, y with
  | NaN, _ | _, NaN => false
  | _, _ => negb (lt x y)
  end.

(** [x <= y]. *)
Definition le (x y : JsNum) : bool := ge y x.

(** [Math.max(x, y)] and [Math.min(x, y)]. *)
Definition max (x y : JsNum) : JsNum :=
  match x, y with
  | NaN, _ | _, NaN => NaN
  | _, _ => if lt x y then y else x
  end.

Definition min (x y : JsNum) : JsNum :=
  match x, y with
  | NaN, _ | _, NaN => NaN
  | _, _ => if lt y x then y else x
  end.

(** Truthiness of a number: [NaN] and zero are falsy. *)
Definition truthy (x : JsNum) : bool :=
  match x with
  | NaN => false
  | Fin q => negb (qzero q)
  | _ => true
  end.

(** [x || d] on numbers. *)
Definition or_else (x d : JsNum) : JsNum := if truthy x then x else d.

(** Equality of the denoted values ([NaN] is identified with itself:
    this is the comparison of the model, not JavaScript's [===]). *)
Definition same (x y : JsNum) : bool :=
  match x, y with
  | NaN, NaN | PInf, PInf | NInf, NInf => true
  | Fin a, Fin b => Qeq_bool a b
  | _, _ => false
  end.

Definition is_finite (x : JsNum) : bool :=
  match x with Fin _ => true | _ => false end.

(** [ToIntegerOrInfinity] restricted to what [slice] needs: truncation
    towards zero, [NaN] becoming 0; the infinities are kept by the caller. *)
Definition trunc (q : Q) : Z :=
  if Qle_bool 0 q then Qfloor q else Qceiling q.

End Num.

Export Num.

(* ------------------------------------------------------------------ *)
(** ** Strings and numeric literals *)

Module Text.

Local Open Scope char_scope.

Fixpoint chars (s : string) : list ascii :=
  match s with
  | EmptyString => []
  | String c s' => c :: chars s'
  end.

Fixpoint of_chars (cs : list ascii) : string :=
  match cs with
  | [] => EmptyString
  | c :: cs' => String c (of_chars cs')
  end.

(** Decimal digits of a non-negative integer, without leading zeros
    (["0"] for zero). *)
Definition digits (n : Z) : string := NilZero.string_of_uint (N.to_uint (Z.to_N n)).

(** ASCII white space (the strings of the model are byte strings). *)
Definition is_ws (c : ascii) : bool :=
  match nat_of_ascii c with
  | 9%nat | 10%nat | 11%nat | 12%nat | 13%nat | 32%nat => true
  | _ => false
  end.

Fixpoint drop_ws (cs : list ascii) : list ascii :=
  match cs with
  | c :: cs' => if is_ws c then drop_ws cs' else cs
  | [] => []
  end.

Definition trim (cs : list ascii) : list ascii :=
  rev (drop_ws (rev (drop_ws cs))).

(** Value of a digit in the given radix, [None] when [c] is not one. *)
Definition digit_val (radix : Z) (c : ascii) : option Z :=
  let n := Z.of_nat (nat_of_ascii c) in
  let v :=
    if (48 <=? n)%Z && (n <=? 57)%Z then Some (n - 48)%Z
    else if (97 <=? n)%Z && (n <=? 102)%Z then Some (n - 87)%Z
    else if (65 <=? n)%Z && (n <=? 70)%Z then Some (n - 55)%Z
    else None in
  match v with
  | Some d => if (d <? radix)%Z then Some d else None
  | None => None
  end.

(** The longest run of digits at the head of [cs]: its value read in the
    radix, how many digits it has, and what follows it. *)
Fixpoint span_digits (radix : Z) (acc : Z) (count : nat) (cs : list ascii)
  : Z * nat * list ascii :=
  match cs with
  | c :: cs' =>
      match digit_val radix c with
      | Some d => span_digits radix (acc * radix + d)%Z (S count) cs'
      | None => (acc, count, cs)
      end
  | [] => (acc, count, [])
  end.

Fixpoint strip_prefix (p cs : list ascii) : option (list ascii) :=
  match p, cs with
  | [], _ => Some cs
  | a :: p', c :: cs' => if Ascii.eqb a c then strip_prefix p' cs' else None
  | _ :: _, [] => None
  end.

(** An optional sign: [true] for a minus. *)
Definition scan_sign (cs : list ascii) : bool * list ascii :=
  match cs with
  | "-" :: cs' => (true, cs')
  | "+" :: cs' => (false, cs')
  | _ => (false, cs)
  end.

(** An exponent part [e|E sign? digits+]; absent (exponent 0, nothing
    consumed) unless at least one digit follows. *)
Definition scan_exponent (cs : list ascii) : Z * list ascii :=
  match cs with
  | c :: cs' =>
      if Ascii.eqb c "e" || Ascii.eqb c "E" then
        let '(sg, r) := scan_sign cs' in
        let '(v, k, r') := span_digits 10 0 0 r in
        match k with
        | O => (0%Z, cs)
        | S _ => ((if sg then - v else v)%Z, r')
        end
      else (0%Z, cs)
  | [] => (0%Z, [])
  end.

(** The longest prefix of [cs] that is a [StrDecimalLiteral]
    (sign, then [Infinity] or digits with an optional fraction and
    exponent), with its value and the rest of the input. *)
Definition scan_decimal (cs : list ascii) : option (JsNum * list ascii) :=
  let '(sg, r0) := scan_sign cs in
  match strip_prefix (chars "Infinity") r0 with
  | Some r => Some (inf sg, r)
  | None =>
      let '(v1, k1, r1) := span_digits 10 0 0 r0 in
      let '(v2, k2, r2) :=
        match r1 with
        | "." :: r1' => span_digits 10 v1 0 r1'
        | _ => (v1, O, r1)
        end in
      let dotted := match r1 with "." :: _ => true | _ => false end in
      match (k1 + k2)%nat with
      | O => None
      | S _ =>
          let r2' := if dotted then r2 else r1 in
          let '(ex, r3) := scan_exponent r2' in
          let m := (inject_Z v2 * Qpower 10 (ex - Z.of_nat k2))%Q in
          Some (Fin (Qred (if sg then - m else m)), r3)
      end
  end.

(** [0x], [0o] and [0b] integer literals (unsigned, whole input). *)
Definition scan_radix (cs : list ascii) : option JsNum :=
  match cs with
  | "0" :: p :: r =>
      let radix :=
        if Ascii.eqb p "x" || Ascii.eqb p "X" then Some 16%Z
        else if Ascii.eqb p "o" || Ascii.eqb p "O" then Some 8%Z
        else if Ascii.eqb p "b" || Ascii.eqb p "B" then Some 2%Z
        else None in
      match radix with
      | Some b =>
          match span_digits b 0 0 r with
          | (v, S _, []) => Some (of_Z v)
          | _ => None
          end
      | None => None
      end
  | _ => None
  end.

(** [StringToNumber]: what [Number(s)] yields for a string. *)
Definition string_to_number (s : string) : JsNum :=
  match trim (chars s) with
  | [] => Fin 0
  | cs =>
      match scan_radix cs with
      | Some n => n
      | None =>
          match scan_decimal cs with
          | Some (n, []) => n
          | _ => NaN
          end
      end
  end.

(** [parseFloat(s)] for a string: the longest decimal prefix after the
    leading white space, [NaN] when there is none. *)
Definition parse_float (s : string) : JsNum :=
  match scan_decimal (drop_ws (chars s)) with
  | Some (n, _) => n
  | None => NaN
  end.

(** Case-insensitive comparison of ASCII letters. *)
Definition lower (c : ascii) : ascii :=
  let n := nat_of_ascii c in
  if (65 <=? n)%nat && (n <=? 90)%nat then ascii_of_nat (n + 32) else c.

Definition eqb_nocase (a b : list ascii) : bool :=
  (List.length a =? List.length b)%nat &&
  forallb (fun p => Ascii.eqb (lower (fst p)) (lower (snd p))) (combine a b).

End Text.

(* ------------------------------------------------------------------ *)
(** ** JSON values as the handlers see them *)

Module Js.

Inductive JsVal : Type :=
| JUndef
| JNull
| JBool (b : bool)
| JNum (n : JsNum)
| JStr (s : string)
| JArr (items : list JsVal)
| JObj (fields : list (string * JsVal)).

(** Truthiness: [undefined], [null], [false], [0], [NaN] and [""] are
    falsy; every array and object is truthy. *)
Definition truthy (v : JsVal) : bool :=
  match v with
  | JUndef | JNull => false
  | JBool b => b
  | JNum n => Num.truthy n
  | JStr s => negb (String.eqb s "")
  | JArr _ | JObj _ => true
  end.

(** [a || b]. *)
Definition or (a b : JsVal) : JsVal := if truthy a then a else b.

(** [v === true] and [v === 'text']. *)
Definition is_true (v : JsVal) : bool :=
  match v with JBool true => true | _ => false end.

Definition is_str (v : JsVal) (text : string) : bool :=
  match v with JStr s => String.eqb s text | _ => false end.

Definition nullish (v : JsVal) : bool :=
  match v with JUndef | JNull => true | _ => false end.

Fixpoint lookup (fields : list (string * JsVal)) (name : string) : JsVal :=
  match fields with
  | [] => JUndef
  | (k, v) :: rest => if String.eqb k name then v else lookup rest name
  end.

(** [v.name] for a [v] that is neither [null] nor [undefined]; only
    [length] is defined on arrays and strings, and nothing on the other
    primitives. *)
Definition get (v : JsVal) (name : string) : JsVal :=
  match v with
  | JObj fields => lookup fields name
  | JArr items =>
      if String.eqb name "length" then JNum (of_Z (Z.of_nat (List.length items)))
      else JUndef
  | JStr s =>
      if String.eqb name "length" then JNum (of_Z (Z.of_nat (String.length s)))
      else JUndef
  | _ => JUndef
  end.

(** [Number(v)].  An array converts through its string: the empty array
    and [[null]] give 0, a one-element array gives what its element
    gives, and a longer one contains a comma and gives [NaN]. *)
Fixpoint to_number (v : JsVal) : JsNum :=
  match v with
  | JUndef => NaN
  | JNull => Fin 0
  | JBool b => if b then Fin 1 else Fin 0
  | JNum n => n
  | JStr s => Text.string_to_number s
  | JArr [] => Fin 0
  | JArr [x] =>
      match x with
      | JUndef | JNull => Fin 0
      | JBool _ | JObj _ => NaN
      | _ => to_number x
      end
  | JArr _ => NaN
  | JObj _ => NaN
  end.

(** [parseFloat(v)]: the decimal prefix of the string of [v].  A number
    reads back as itself; the string of an array starts with the string
    of its first element, and the comma after it ends any literal. *)
Fixpoint parseFloat (v : JsVal) : JsNum :=
  match v with
  | JNum n => n
  | JStr s => Text.parse_float s
  | JArr (x :: _) => parseFloat x
  | _ => NaN
  end.

(** [Number(v) || d], the defaulting idiom of both handlers. *)
Definition number_or (v : JsVal) (d : JsNum) : JsNum :=
  Num.or_else (to_number v) d.

End Js.

Export Js.

(* ------------------------------------------------------------------ *)
(** ** The trades table *)

Module Store.

Inductive Side : Type := buy | sell.

(** A row of [trades]: [id TEXT PRIMARY KEY, exchange TEXT, symbol TEXT,
    price REAL, qty REAL, side TEXT, ts INTEGER].  A number that is [NaN]
    is stored as SQL [NULL]. *)
Record Trade : Type := mkTrade {
  id : string;
  exchange : string;
  symbol : string;
  price : JsNum;
  qty : JsNum;
  side : Side;
  ts : JsNum
}.

(** The table in row order. *)
Definition Table : Type := list Trade.

Definition has_id (k : string) (t : Trade) : bool := String.eqb (id t) k.

Definition find_id (k : string) (tbl : Table) : option Trade :=
  find (has_id k) tbl.

(** Conflict clauses of an [INSERT]. *)
Inductive OnConflict : Type := Abort | Ignore.

Inductive SqlError : Type :=
| ConstraintPrimaryKey (k : string).

(** [INSERT [OR IGNORE] INTO trades ... VALUES (...)]: a row whose [id]
    is already present violates the primary key; under [OR IGNORE] the
    statement then does nothing, otherwise it fails. *)
Definition sql_insert (c : OnConflict) (t : Trade) (tbl : Table)
  : SqlError + Table :=
  match find_id (id t) tbl with
  | Some _ =>
      match c with
      | Ignore => inr tbl
      | Abort => inl (ConstraintPrimaryKey (id t))
      end
  | None => inr (tbl ++ [t])
  end.

(** [insertTrade(trade)]: the prepared statement is [INSERT OR IGNORE]. *)
Definition insertTrade (t : Trade) (tbl : Table) : SqlError + Table :=
  sql_insert Ignore t tbl.

(** What a column gives back in arithmetic: [NULL] is read as [null],
    which converts to 0. *)
Definition column (x : JsNum) : JsNum :=
  match x with NaN => Fin 0 | _ => x end.

(** [ts >= ?] in the [WHERE] clause: unknown, hence not selected, when
    either side is [NULL]. *)
Definition sql_ge (x bound : JsNum) : bool := Num.ge x bound.

(** [SELECT price, qty, ts FROM trades
     WHERE symbol = ? AND exchange = ? AND ts >= ?]. *)
Definition selected (sym exch : string) (since : JsNum) (t : Trade) : bool :=
  String.eqb (symbol t) sym && String.eqb (exchange t) exch && sql_ge (ts t) since.

Definition select_trades (sym exch : string) (since : JsNum) (tbl : Table)
  : list Trade :=
  filter (selected sym exch since) tbl.

End Store.

Export Store.

(* ------------------------------------------------------------------ *)
(** ** The cluster aggregator *)

Module Aggregator.

Local Open Scope string_scope.

(** Keys of the bucket map, [pb.toFixed(8)].  Below [1e21] in magnitude
    the key is the decimal rendering with eight fractional digits; from
    [1e21] on, [toFixed] gives the string of the number itself, which
    identifies the number and is kept as that number. *)
Inductive Key : Type :=
| Rendered (s : string)
| Exponential (q : Q).

Definition key_eqb (a b : Key) : bool :=
  match a, b with
  | Rendered s, Rendered s' => String.eqb s s'
  | Exponential q, Exponential q' => Qeq_bool q q'
  | _, _ => false
  end.

(** The digits of [n], with zeros in front so that there are at least
    nine of them. *)
Definition padded (n : Z) : list ascii :=
  let m := Text.chars (Text.digits n) in
  if (List.length m <=? 8)%nat
  then (repeat "0"%char (9 - List.length m) ++ m)%list
  else m.

(** The padded digits of [n] with a point before the last eight. *)
Definition fixed8 (n : Z) : list ascii :=
  let m := padded n in
  let k := List.length m in
  (firstn (k - 8) m ++ "."%char :: skipn (k - 8) m)%list.

(** [x.toFixed(8)]: [n] is the integer nearest to [|x| * 10^8], the
    larger one on a tie; the sign is written when [x < 0]. *)
Definition toFixed8 (x : JsNum) : Key :=
  match x with
  | NaN => Rendered "NaN"
  | PInf => Rendered "Infinity"
  | NInf => Rendered "-Infinity"
  | Fin q =>
      if Qle_bool (inject_Z (10 ^ 21)) (Qabs q) then Exponential (Qred q)
      else
        let n := Qfloor (Qabs q * inject_Z (10 ^ 8) + (1 # 2)) in
        Rendered (Text.of_chars
                    ((if qneg q then ["-"%char] else []) ++ fixed8 n)%list)
  end.

(** A value of the bucket map: [{price, volume, lastTs}]. *)
Record Bucket : Type := mkBucket {
  price : JsNum;
  volume : JsNum;
  lastTs : JsNum
}.

(** A [Map] keeps its keys in the order of their first insertion. *)
Definition BucketMap : Type := list (Key * Bucket).

Fixpoint map_get (k : Key) (m : BucketMap) : option Bucket :=
  match m with
  | [] => None
  | (k', v) :: m' => if key_eqb k' k then Some v else map_get k m'
  end.

Fixpoint map_set (k : Key) (v : Bucket) (m : BucketMap) : BucketMap :=
  match m with
  | [] => [(k, v)]
  | (k', v') :: m' =>
      if key_eqb k' k then (k', v) :: m' else (k', v') :: map_set k v m'
  end.

Definition map_values (m : BucketMap) : list Bucket := map snd m.

(** [Math.round(r.price / bucketSize) * bucketSize]. *)
Definition bucket_price (bucketSize : JsNum) (r : Trade) : JsNum :=
  Num.mul (Num.round (Num.div (column (Store.price r)) bucketSize)) bucketSize.

(** One turn of [for (const r of rows)]. *)
Definition accumulate (bucketSize : JsNum) (buckets : BucketMap) (r : Trade)
  : BucketMap :=
  let pb := bucket_price bucketSize r in
  let key := toFixed8 pb in
  let v :=
    match map_get key buckets with
    | Some v => v
    | None => mkBucket pb (Fin 0) (Fin 0)
    end in
  let v := mkBucket (price v)
                    (Num.add (volume v) (column (qty r)))
                    (Num.max (lastTs v) (column (ts r))) in
  map_set key v buckets.

Definition fill (bucketSize : JsNum) (rows : list Trade) : BucketMap :=
  fold_left (accumulate bucketSize) rows [].

(** [Array.prototype.sort(cmp)] is stable: [a] stays before a later [b]
    unless [cmp(a, b) > 0].  For a comparator that orders its arguments
    consistently every stable sort gives this result. *)
Section Sort.
Context {A : Type} (cmp : A -> A -> JsNum).

Definition after (a b : A) : bool := Num.lt (Fin 0) (cmp a b).

Fixpoint insert (a : A) (sorted : list A) : list A :=
  match sorted with
  | [] => [a]
  | b :: rest => if after a b then b :: insert a rest else a :: sorted
  end.

Definition sort (l : list A) : list A := fold_right insert [] l.
End Sort.

(** [(a, b) => b.volume - a.volume]. *)
Definition by_volume (a b : Bucket) : JsNum := Num.sub (volume b) (volume a).

(** [arr.slice(0, limit)]: the bound is truncated to an integer, [NaN]
    counting as 0, and a negative bound counts from the end. *)
Definition slice_end (limit : JsNum) (len : Z) : Z :=
  match limit with
  | NaN => 0
  | PInf => len
  | NInf => 0
  | Fin q =>
      let k := Num.trunc q in
      if (k <? 0)%Z then Z.max (len + k) 0 else Z.min k len
  end.

Definition slice0 {A : Type} (limit : JsNum) (l : list A) : list A :=
  firstn (Z.to_nat (slice_end limit (Z.of_nat (List.length l)))) l.

(** The part of [computeClusters] after the query. *)
Definition clusters_of (rows : list Trade) (bucketSize limit : JsNum)
  : list Bucket :=
  match rows with
  | [] => []
  | _ => slice0 limit (sort by_volume (map_values (fill bucketSize rows)))
  end.

(** [computeClusters(symbol, exchange, periodMs, bucketSize, limit)],
    run at time [now] over the table [tbl].  Rows come in table order. *)
Definition computeClusters (now : Z) (tbl : Table) (sym exch : string)
    (periodMs bucketSize limit : JsNum) : list Bucket :=
  let since := Num.sub (of_Z now) periodMs in
  let rows := select_trades sym exch since tbl in
  clusters_of rows bucketSize limit.

(** The parameters of [computeClusters] left out by a caller take their
    declared defaults. *)
Definition computeClusters_default (now : Z) (tbl : Table) (sym exch : string)
    (periodMs bucketSize limit : option JsNum) : list Bucket :=
  computeClusters now tbl sym exch
    (match periodMs with Some p => p | None => of_Z 3600000 end)
    (match bucketSize with Some b => b | None => Fin 1 end)
    (match limit with Some l => l | None => of_Z 100 end).

(** The query string of [GET /api/top-clusters]. *)
Record Query : Type := mkQuery {
  q_symbol : option string;
  q_exchange : option string;
  q_limit : JsVal;
  q_periodMs : JsVal;
  q_bucket : JsVal
}.

(** [req.query.name || fallback] for a parameter that is a string when
    present. *)
Definition string_or (v : option string) (fallback : string) : string :=
  match v with
  | Some s => if String.eqb s "" then fallback else s
  | None => fallback
  end.

Record ClusterParams : Type := mkParams {
  p_symbol : string;
  p_exchange : string;
  p_limit : JsNum;
  p_periodMs : JsNum;
  p_bucket : JsNum
}.

(** The first five statements of the handler. *)
Definition top_clusters_params (q : Query) : ClusterParams :=
  mkParams (string_or (q_symbol q) "BTCUSDT")
           (string_or (q_exchange q) "binance")
           (number_or (q_limit q) (of_Z 50))
           (number_or (q_periodMs q) (of_Z (24 * 3600 * 1000)))
           (number_or (q_bucket q) (Fin 1)).

(** [app.get('/api/top-clusters', ...)]: the body [{symbol, exchange,
    clusters}] of the response. *)
Definition top_clusters (now : Z) (tbl : Table) (q : Query)
  : string * string * list Bucket :=
  let p := top_clusters_params q in
  (p_symbol p, p_exchange p,
   computeClusters now tbl (p_symbol p) (p_exchange p)
     (p_periodMs p) (p_bucket p) (p_limit p)).

End Aggregator.

(* ------------------------------------------------------------------ *)
(** ** The backfill orchestrator *)

Module Backfill.

Local Open Scope string_scope.

(** What a connector asks of its exchange: the endpoint and the
    parameters spliced into the URL. *)
Inductive Request : Type :=
| BinanceAggTrades (sym : string) (startTime endTime : JsNum) (limit : Z)
| OKXTrades (instId : string) (limit : Z)
| BybitTrades (sym : string) (limit : Z).

(** Everything outside the process: the answer of the network to the
    [n]-th request ([None] when [axios.get] rejects, otherwise the parsed
    body [r.data]), the draws of [Math.random], and the engine's
    rendering of a finite number that is not an integer below [1e21]. *)
Record Env : Type := mkEnv {
  respond : nat -> Request -> option JsVal;
  random : nat -> Q;
  number_text : Q -> string
}.

Inductive Event : Type :=
| Fetched (r : Request) (ok : bool)
| Slept (ms : Z).

(** The process state a handler reads and writes. *)
Record World : Type := mkWorld {
  db : Table;
  clock : Z;
  calls : nat;
  draws : nat;
  log : list Event
}.

Inductive Exn : Type :=
| FetchFailed (r : Request)
| TypeError (what : string)
| RangeError (what : string)
| StoreFailure (e : SqlError).

(** A computation returns, throws, or is cut short by the step budget
    of the model; the world it leaves behind is kept in each case. *)
Inductive Outcome (A : Type) : Type :=
| Ret (a : A)
| Throw (e : Exn)
| Timeout.

Arguments Ret {A} a.
Arguments Throw {A} e.
Arguments Timeout {A}.

Definition M (A : Type) : Type := World -> Outcome A * World.

Definition ret {A : Type} (a : A) : M A := fun w => (Ret a, w).

Definition throw {A : Type} (e : Exn) : M A := fun w => (Throw e, w).

Definition bind {A B : Type} (m : M A) (k : A -> M B) : M B :=
  fun w =>
    match m w with
    | (Ret a, w') => k a w'
    | (Throw e, w') => (Throw e, w')
    | (Timeout, w') => (Timeout, w')
    end.

Notation "x <- m ;; k" := (bind m (fun x => k))
  (at level 61, m at next level, right associativity).
Notation "m ;; k" := (bind m (fun _ => k))
  (at level 61, right associativity).

(** [Date.now()]. *)
Definition Date_now : M Z := fun w => (Ret (clock w), w).

(** [await new Promise(r => setTimeout(r, ms))]. *)
Definition sleep (ms : Z) : M unit :=
  fun w => (Ret tt, mkWorld (db w) (clock w + ms) (calls w) (draws w)
                            (log w ++ [Slept ms])).

(** [Math.random()]. *)
Definition Math_random (env : Env) : M JsNum :=
  fun w => (Ret (Fin (random env (draws w))),
            mkWorld (db w) (clock w) (calls w) (S (draws w)) (log w)).

(** [(await axios.get(url, {timeout: 20000})).data]. *)
Definition axios_get (env : Env) (r : Request) : M JsVal :=
  fun w =>
    let answer := respond env (calls w) r in
    let ok := match answer with Some _ => true | None => false end in
    let w' := mkWorld (db w) (clock w) (S (calls w)) (draws w)
                      (log w ++ [Fetched r ok]) in
    match answer with
    | Some data => (Ret data, w')
    | None => (Throw (FetchFailed r), w')
    end.

Definition fetchBinanceAggTrades (env : Env) (sym : string)
    (startTime endTime : JsNum) (limit : Z) : M JsVal :=
  axios_get env (BinanceAggTrades sym startTime endTime limit).

Definition fetchOKXTrades (env : Env) (instId : string) (limit : Z) : M JsVal :=
  axios_get env (OKXTrades instId limit).

Definition fetchBybitTrades (env : Env) (sym : string) : M JsVal :=
  axios_get env (BybitTrades sym 200).

(** [insertTrade(trade)] on the shared database handle. *)
Definition insert (t : Trade) : M unit :=
  fun w =>
    match insertTrade t (db w) with
    | inr tbl => (Ret tt, mkWorld tbl (clock w) (calls w) (draws w) (log w))
    | inl e => (Throw (StoreFailure e), w)
    end.

(** [p-retry] is a dependency of the server.  Its option [retries] is
    the number of times the operation is tried again after the first
    attempt has failed; the waits between attempts are those of the
    [retry] package it is built on: [retries] of them, the [i]-th being
    [minTimeout * 2^i] (factor 2, no randomisation, no upper bound,
    [minTimeout] 1000 unless given). *)
Definition retry_timeouts (retries : nat) (minTimeout : Z) : list Z :=
  map (fun i => (minTimeout * 2 ^ Z.of_nat i)%Z) (seq 0 retries).

(** One attempt, and on a failed fetch one more after each remaining
    wait; the last failure is the one that surfaces. *)
Fixpoint attempts {A : Type} (op : M A) (waits : list Z) : M A :=
  fun w =>
    match op w with
    | (Throw (FetchFailed r), w') =>
        match waits with
        | [] => (Throw (FetchFailed r), w')
        | d :: waits' => (sleep d ;; attempts op waits') w'
        end
    | other => other
    end.

(** [pRetry(op, {retries, minTimeout})]: [op] is run once and, while it
    fails, up to [retries] more times. *)
Definition pRetry {A : Type} (op : M A) (retries : nat) (minTimeout : Z) : M A :=
  attempts op (retry_timeouts retries minTimeout).

(** [pRetry(op, {retries})] with the package default [minTimeout: 1000]. *)
Definition pRetry_default {A : Type} (op : M A) (retries : nat) : M A :=
  pRetry op retries 1000.

(** [Number::toString]. *)
Definition number_to_string (env : Env) (n : JsNum) : string :=
  match n with
  | NaN => "NaN"
  | PInf => "Infinity"
  | NInf => "-Infinity"
  | Fin q =>
      let z := Qfloor q in
      if Qeq_bool q (inject_Z z) && (Z.abs z <? 10 ^ 21)%Z
      then (if (z <? 0)%Z then "-" else "") ++ Text.digits (Z.abs z)
      else number_text env q
  end.

Fixpoint join (parts : list string) : string :=
  match parts with
  | [] => ""
  | [p] => p
  | p :: rest => p ++ "," ++ join rest
  end.

(** The string a value takes inside a template literal. *)
Fixpoint to_string (env : Env) (v : JsVal) : string :=
  match v with
  | JUndef => "undefined"
  | JNull => "null"
  | JBool b => if b then "true" else "false"
  | JNum n => number_to_string env n
  | JStr s => s
  | JArr items =>
      join (map (fun x => if nullish x then "" else to_string env x) items)
  | JObj _ => "[object Object]"
  end.

(** [v || Math.random()]: the generator is consulted only when [v] is
    falsy. *)
Definition or_random (env : Env) (v : JsVal) : M JsVal :=
  if Js.truthy v then ret v
  else (r <- Math_random env ;; ret (JNum r)).

(** [v || Date.now()], as the number kept in the [ts] column. *)
Definition or_now (v : JsVal) : M JsNum :=
  if Js.truthy v then ret (to_number v)
  else (now <- Date_now ;; ret (of_Z now)).

(** Reading a property of [null] or [undefined] throws. *)
Definition object_of (t : JsVal) : M JsVal :=
  if nullish t then throw (TypeError "Cannot read properties of null or undefined")
  else ret t.

Definition binance_side (t : JsVal) : Side :=
  if is_true (get t "m") then sell else buy.

Definition okx_side (t : JsVal) : Side :=
  if is_str (get t "side") "sell" || is_str (get t "side") "S" then sell else buy.

Definition bybit_side (t : JsVal) : Side :=
  if is_str (get t "side") "Sell" then sell else buy.

(** The object literal [trade] of the Binance branch. *)
Definition binance_trade (env : Env) (sym : string) (t0 : JsVal) : M Trade :=
  t <- object_of t0 ;;
  key <- or_random env (or (or (get t "a") (get t "aggregateId")) (get t "tradeId")) ;;
  stamp <- or_now (get t "T") ;;
  ret (mkTrade (sym ++ "-binance-" ++ to_string env key)
               "binance" sym
               (parseFloat (get t "p"))
               (parseFloat (get t "q"))
               (binance_side t)
               stamp).

(** The object literal [trade] of the OKX branch. *)
Definition okx_trade (env : Env) (sym : string) (t0 : JsVal) : M Trade :=
  t <- object_of t0 ;;
  key <- or_random env (or (get t "ts") (get t "tradeId")) ;;
  now <- Date_now ;;
  ret (mkTrade (sym ++ "-okx-" ++ to_string env key)
               "okx" sym
               (parseFloat (get t "p"))
               (parseFloat (or (or (get t "sz") (get t "qty")) (JNum (Fin 0))))
               (okx_side t)
               (number_or (get t "ts") (of_Z now))).

(** The object literal [trade] of the Bybit branch. *)
Definition bybit_trade (env : Env) (sym : string) (t0 : JsVal) : M Trade :=
  t <- object_of t0 ;;
  key <- or_random env (get t "trade_time_ms") ;;
  stamp <- or_now (get t "trade_time_ms") ;;
  ret (mkTrade (sym ++ "-bybit-" ++ to_string env key)
               "bybit" sym
               (parseFloat (get t "price"))
               (parseFloat (or (or (get t "qty") (get t "size")) (JNum (Fin 0))))
               (bybit_side t)
               stamp).

(** [for (const t of v)]: an array yields its elements, a string its
    characters, and any other value is not iterable. *)
Definition iterate (v : JsVal) : M (list JsVal) :=
  match v with
  | JArr items => ret items
  | JStr s => ret (map (fun c => JStr (String c "")) (Text.chars s))
  | _ => throw (TypeError "value is not iterable")
  end.

(** [for (const t of items) { const trade = ...; insertTrade(trade); }]. *)
Fixpoint insert_all (normalize : JsVal -> M Trade) (items : list JsVal) : M unit :=
  match items with
  | [] => ret tt
  | t :: rest =>
      trade <- normalize t ;;
      insert trade ;;
      insert_all normalize rest
  end.

(** [new Date(x).toISOString()] throws unless [x] is a time value. *)
Definition toISOString (x : JsNum) : M unit :=
  match x with
  | Fin q =>
      if Qle_bool (Qabs q) (inject_Z 8640000000000000) then ret tt
      else throw (RangeError "Invalid time value")
  | _ => throw (RangeError "Invalid time value")
  end.

Definition windowMs : JsNum := of_Z (60 * 60 * 1000).

Definition is_array (v : JsVal) : bool :=
  match v with JArr _ => true | _ => false end.

(** [pRetry(() => fetchBinanceAggTrades(symbol, s, e, 1000),
            {retries: 3, minTimeout: 500})]. *)
Definition binance_fetch (env : Env) (sym : string) (s e : JsNum) : M JsVal :=
  pRetry (fetchBinanceAggTrades env sym s e 1000) 3 500.

(** [pRetry(() => fetchOKXTrades(instId, 100), {retries: 2})]. *)
Definition okx_fetch (env : Env) (instId : string) : M JsVal :=
  pRetry_default (fetchOKXTrades env instId 100) 2.

(** [pRetry(() => fetchBybitTrades(symbol), {retries: 2})]. *)
Definition bybit_fetch (env : Env) (sym : string) : M JsVal :=
  pRetry_default (fetchBybitTrades env sym) 2.

(** [Math.min(end, s + windowMs - 1)]. *)
Definition window_end (end_ s : JsNum) : JsNum :=
  Num.min end_ (Num.sub (Num.add s windowMs) (Fin 1)).

(** The body of the window loop for the window starting at [s]; the
    [console.log] line formats both ends of the window. *)
Definition binance_window (env : Env) (sym : string) (end_ s : JsNum) : M unit :=
  let e := window_end end_ s in
  toISOString s ;;
  toISOString e ;;
  data <- binance_fetch env sym s e ;;
  (if is_array data && Js.truthy (get data "length")
   then (items <- iterate data ;; insert_all (binance_trade env sym) items)
   else ret tt) ;;
  sleep 300.

(** [for (let s = start; s < end; s += windowMs) { ... }], cut short
    after [budget] windows. *)
Fixpoint binance_windows (budget : nat) (env : Env) (sym : string)
    (end_ s : JsNum) : M unit :=
  if Num.lt s end_ then
    match budget with
    | O => fun w => (Timeout, w)
    | S budget' =>
        binance_window env sym end_ s ;;
        binance_windows budget' env sym end_ (Num.add s windowMs)
    end
  else ret tt.

(** A budget the loop cannot exhaust: a window is entered only at a time
    value, so fewer than this many of them lie below [end_]. *)
Definition window_budget (start end_ : JsNum) : nat :=
  match start, end_ with
  | Fin s, Fin e =>
      let top := Qmin e (inject_Z 8640000000000001) in
      S (Z.to_nat (Qceiling ((top - s) / inject_Z 3600000)))
  | Fin s, PInf =>
      S (Z.to_nat (Qceiling ((inject_Z 8640000000000001 - s) / inject_Z 3600000)))
  | _, _ => 1%nat
  end.

(** [symbol.replace(/USDT$/i, '-USDT-SWAP')]. *)
Definition okx_instId (sym : string) : string :=
  let cs := Text.chars sym in
  let n := List.length cs in
  if (4 <=? n)%nat && Text.eqb_nocase (skipn (n - 4) cs) (Text.chars "USDT")
  then Text.of_chars (firstn (n - 4) cs) ++ "-USDT-SWAP"
  else sym.

Definition okx_branch (env : Env) (sym : string) : M unit :=
  data <- okx_fetch env (okx_instId sym) ;;
  if Js.truthy data && Js.truthy (get data "data")
  then (items <- iterate (get data "data") ;; insert_all (okx_trade env sym) items)
  else ret tt.

Definition bybit_branch (env : Env) (sym : string) : M unit :=
  data <- bybit_fetch env sym ;;
  if Js.truthy data && Js.truthy (get data "result")
  then (items <- iterate (get data "result") ;; insert_all (bybit_trade env sym) items)
  else ret tt.

(** The body [{symbol, exchange, startTs, endTs}] of a backfill request;
    [symbol] and [exchange] are strings when present. *)
Record Body : Type := mkBody {
  b_symbol : option string;
  b_exchange : option string;
  startTs : JsVal;
  endTs : JsVal
}.

Inductive Response : Type :=
| Ok200                       (* {ok: true, message: 'backfill done ...'} *)
| Error400                    (* {error: 'symbol, exchange required'} *)
| Error500 (e : Exn)          (* {error: String(e)} *)
| NoResponse.                 (* the step budget ran out *)

Definition present (v : option string) : option string :=
  match v with
  | Some s => if String.eqb s "" then None else Some s
  | None => None
  end.

(** The two defaulting statements before the [try]. *)
Definition range_start (now : Z) (b : Body) : JsNum :=
  number_or (startTs b) (of_Z (now - 24 * 3600 * 1000)).

Definition range_end (now : Z) (b : Body) : JsNum :=
  number_or (endTs b) (of_Z now).

(** The [if / else if] chain inside the [try]. *)
Definition dispatch (budget : nat) (env : Env) (sym exch : string)
    (start end_ : JsNum) : M unit :=
  if String.eqb exch "binance" then binance_windows budget env sym end_ start
  else if String.eqb exch "okx" then okx_branch env sym
  else if String.eqb exch "bybit" then bybit_branch env sym
  else ret tt.

(** [app.post('/api/backfill', ...)] with an explicit step budget. *)
Definition backfill_within (budget : nat) (env : Env) (b : Body) (w : World)
  : Response * World :=
  match present (b_symbol b), present (b_exchange b) with
  | Some sym, Some exch =>
      let start := range_start (clock w) b in
      let end_ := range_end (clock w) b in
      match dispatch budget env sym exch start end_ w with
      | (Ret _, w') => (Ok200, w')
      | (Throw e, w') => (Error500 e, w')
      | (Timeout, w') => (NoResponse, w')
      end
  | _, _ => (Error400, w)
  end.

(** The handler itself. *)
Definition backfill (env : Env) (b : Body) (w : World) : Response * World :=
  backfill_within
    (window_budget (range_start (clock w) b) (range_end (clock w) b)) env b w.

End Backfill.


(* ------------------------------------------------------------------ *)
(** ** Vocabulary of the statements *)

Module Terms.
Import Aggregator.

(** Every stored quantity is a finite number (a [NULL] reads as 0). *)
Definition finite_quantities (tbl : list Trade) : Prop :=
  Forall (fun t => Num.is_finite (column (qty t)) = true) tbl.

(** A bucket sequence in descending order of volume. *)
Definition descending (l : list Bucket) : Prop :=
  StronglySorted (fun a b => Num.ge (volume a) (volume b) = true) l.

(** A bucket whose volume is a finite number. *)
Definition fin_vol (b : Bucket) : Prop := exists q, volume b = Fin q.

(** The key a row is filed under. *)
Definition key_of (bucketSize : JsNum) (r : Trade) : Key :=
  toFixed8 (bucket_price bucketSize r).

(** The rows filed under [key], in the order they are read. *)
Definition rows_with (bucketSize : JsNum) (key : Key) (rows : list Trade)
  : list Trade :=
  filter (fun r => key_eqb (key_of bucketSize r) key) rows.

(** Sum of the quantities and latest timestamp of some rows, both
    starting from 0 as a fresh bucket does. *)
Definition total_qty (rows : list Trade) : JsNum :=
  fold_left (fun v r => Num.add v (column (qty r))) rows (Fin 0).

Definition latest_ts (rows : list Trade) : JsNum :=
  fold_left (fun m r => Num.max m (column (ts r))) rows (Fin 0).

(** The bucket made of the given rows, which share a key: its price is
    the bucket price of the first of them. *)
Definition bucket_of (bucketSize : JsNum) (same : list Trade) : option Bucket :=
  match same with
  | [] => None
  | r0 :: _ =>
      Some (mkBucket (bucket_price bucketSize r0) (total_qty same) (latest_ts same))
  end.



(** No two entries of a bucket map have the same key. *)
Fixpoint distinct_keys (m : BucketMap) : Prop :=
  match m with
  | [] => True
  | (k, _) :: m' =>
      Forall (fun e => key_eqb k (fst e) = false) m' /\ distinct_keys m'
  end.

End Terms.

Module Run.
Import Backfill.
Local Open Scope string_scope.

(** A parameter value that the idiom [Number(v) || d] replaces by [d]:
    left out, not a number, or zero. *)
Definition defaulted (v : JsVal) : Prop :=
  v = JUndef \/ to_number v = NaN \/ exists q, to_number v = Fin q /\ q == 0.

Definition known_exchange (exch : string) : bool :=
  String.eqb exch "binance" || String.eqb exch "okx" || String.eqb exch "bybit".

Definition is_failure (r : Response) : bool :=
  match r with
  | Error400 | Error500 _ => true
  | Ok200 | NoResponse => false
  end.

Definition is_fetch (e : Event) : bool :=
  match e with Fetched _ _ => true | Slept _ => false end.

(** Number of requests sent in a stretch of the log. *)
Definition fetches (evs : list Event) : nat := List.length (filter is_fetch evs).

(** A stretch of the log made of requests alone, each separated from
    the next by one wait of at least [least] milliseconds. *)
Fixpoint spaced (least : Z) (evs : list Event) : bool :=
  match evs with
  | [] => true
  | Fetched _ _ :: rest =>
      match rest with
      | [] => true
      | Slept d :: rest' => (least <=? d)%Z && spaced least rest'
      | Fetched _ _ :: _ => false
      end
  | Slept _ :: _ => false
  end.

(** A computation that sends at most [n] requests from any world. *)
Definition sends_at_most (n : nat) {A : Type} (m : M A) : Prop :=
  forall w, (fetches (log (snd (m w))) <= fetches (log w) + n)%nat.

(** A computation that cannot run out of budget. *)
Definition finishes {A : Type} (m : M A) : Prop :=
  forall w, fst (m w) <> Timeout.

(** A normalizer that reads the clock and the generator only, and
    fails neither on the network nor on the budget. *)
Definition quiet (normalize : JsVal -> M Trade) : Prop :=
  forall (t : JsVal) (w w' : World) (o : Outcome Trade),
    normalize t w = (o, w') ->
    db w' = db w /\ log w' = log w /\ o <> Timeout /\
    forall r, o <> Throw (FetchFailed r).

(** The starts of the windows the loop would visit if none failed. *)
Fixpoint window_starts (budget : nat) (end_ s : JsNum) : list JsNum :=
  if Num.lt s end_ then
    match budget with
    | O => []
    | S budget' => s :: window_starts budget' end_ (Num.add s windowMs)
    end
  else [].

(** The request of the window that starts at [s]. *)
Definition window_request (sym : string) (end_ s : JsNum) : Request :=
  BinanceAggTrades sym s (window_end end_ s) 1000.

(** The loop head [(s, w)] from which the loop, window after window
    completing normally, arrives at another loop head. *)
Inductive reaches (env : Env) (sym : string) (end_ : JsNum)
  : JsNum * World -> JsNum * World -> Prop :=
| reaches_here (x : JsNum * World) : reaches env sym end_ x x
| reaches_next (s : JsNum) (w w1 : World) (x : JsNum * World) :
    Num.lt s end_ = true ->
    binance_window env sym end_ s w = (Ret tt, w1) ->
    reaches env sym end_ (Num.add s windowMs, w1) x ->
    reaches env sym end_ (s, w) x.

(** The upper end of the time values a window can start at, capped by
    the end of the range. *)
Definition horizon (end_ : JsNum) : Q :=
  match end_ with
  | Fin e => Qmin e (inject_Z 8640000000000001)
  | _ => inject_Z 8640000000000001
  end.

(** A budget of [n] windows is enough from [s]. *)
Definition enough (n : nat) (s end_ : JsNum) : Prop :=
  (1 <= n)%nat /\
  forall q, s = Fin q -> Num.lt s end_ = true ->
    horizon end_ <= q + inject_Z (Z.of_nat n - 1) * inject_Z 3600000.

(** The three readings of the spec that the code does not follow, as
    statements about a run. *)

(** An exchange without connector makes the call fail. *)
Definition rejects_unknown_exchange (env : Env) (b : Body) (w : World) : Prop :=
  forall sym exch,
    present (b_symbol b) = Some sym ->
    present (b_exchange b) = Some exch ->
    known_exchange exch = false ->
    is_failure (fst (backfill env b w)) = true.

(** At most three attempts per window of a range backfill, at most two
    for a recent-only exchange. *)
Definition three_and_two_attempts (env : Env) (sym : string) (s e : JsNum) : Prop :=
  sends_at_most 3 (binance_fetch env sym s e) /\
  sends_at_most 2 (okx_fetch env (okx_instId sym)) /\
  sends_at_most 2 (bybit_fetch env sym).

(** A window whose every attempt fails is skipped: the call succeeds
    and the trades the other windows return are stored. *)
Definition skips_failed_window (env : Env) (b : Body) (w : World) : Prop :=
  forall sym,
    present (b_symbol b) = Some sym ->
    present (b_exchange b) = Some "binance" ->
    let start := range_start (clock w) b in
    let end_ := range_end (clock w) b in
    let starts := window_starts (window_budget start end_) end_ start in
    forall bad,
      In bad starts ->
      (forall n, respond env n (window_request sym end_ bad) = None) ->
      fst (backfill env b w) = Ok200 /\
      forall s items t w1 trade w2,
        In s starts -> Num.same s bad = false ->
        (forall n, respond env n (window_request sym end_ s) = Some (JArr items)) ->
        In t items ->
        binance_trade env sym t w1 = (Ret trade, w2) ->
        find_id (id trade) (db (snd (backfill env b w))) <> None.

End Run.

(** Concrete runs used below. *)
Module Scenario.
Import Backfill.
Local Open Scope string_scope.

(** An aggregated trade as Binance reports it. *)
Definition agg_trade (a : Z) (p q : string) (m : bool) (T : Z) : JsVal :=
  JObj [("a", JNum (of_Z a)); ("p", JStr p); ("q", JStr q);
        ("m", JBool m); ("T", JNum (of_Z T))].

(** A network on which the window starting at [bad] always fails and
    every other Binance window returns one trade stamped at its start;
    the other exchanges are unreachable. *)
Definition failing_at (bad : Z) : Env :=
  mkEnv (fun _ r =>
           match r with
           | BinanceAggTrades _ (Fin s) _ _ =>
               if Qeq_bool s (inject_Z bad) then None
               else Some (JArr [agg_trade (Qfloor s) "100.2" "1" true (Qfloor s)])
           | _ => None
           end)
        (fun _ => 1 # 2)
        (fun _ => "0.5").

(** A network on which every request fails. *)
Definition unreachable : Env :=
  mkEnv (fun _ _ => None) (fun _ => 1 # 2) (fun _ => "0.5").

Definition idle (now : Z) : World := mkWorld [] now 0 0 [].

Definition hour : Z := 3600000.

End Scenario.

(** Vocabulary of the further properties. *)
Module More.
Import Aggregator Backfill Run.

(** [tbl'] comes from [tbl] by a sequence of [insertTrade] calls, each
    for a trade that satisfies [P]. *)
Inductive grows (P : Trade -> Prop) : Table -> Table -> Prop :=
| grows_none (tbl : Table) : grows P tbl tbl
| grows_one (tbl tbl' tbl'' : Table) (t : Trade) :
    grows P tbl tbl' -> P t -> insertTrade t tbl' = inr tbl'' ->
    grows P tbl tbl''.

(** A computation whose only effect on the database is such a
    sequence. *)
Definition inserts_only (P : Trade -> Prop) {A : Type} (m : M A) : Prop :=
  forall (w w' : World) (o : Outcome A), m w = (o, w') -> grows P (db w) (db w').

(** The trades a connector of the given name builds for a symbol. *)
Definition tagged (sym exch : string) (t : Trade) : Prop :=
  symbol t = sym /\ exchange t = exch.






(** The error thrown on reading a property of [null]. *)
Definition null_error : Exn :=
  TypeError "Cannot read properties of null or undefined".




(** Sum of a list of waits. *)
Definition total (waits : list Z) : Z := fold_right Z.add 0%Z waits.

(** A network that fails the first [k] requests and answers every later
    one with [data]. *)
Definition flaky (k : nat) (data : JsVal) : Env :=
  mkEnv (fun n _ => if (n <? k)%nat then None else Some data)
        (fun _ => 1 # 2)
        (fun _ => "0.5"%string).

End More.

(** Vocabulary of the further properties of the aggregator. *)
Module Totals.
Import Aggregator Terms.

(** The price level a bucket stands for: the key of its price. *)
Definition level (b : Bucket) : Key := toFixed8 (price b).


(** A trade of another symbol or of another exchange. *)
Definition foreign (sym exch : string) (t : Trade) : Prop :=
  symbol t <> sym \/ exchange t <> exch.



(** The rows [computeClusters] reads at time [now]. *)
Definition rows_read (now : Z) (tbl : Table) (sym exch : string) (periodMs : JsNum)
  : list Trade :=
  select_trades sym exch (Num.sub (of_Z now) periodMs) tbl.

End Totals.
(* ================================================================== *)
(** * Properties *)

(** ** Sample evaluations of the built-in conversions *)

Example string_to_number_samples :
  map Text.string_to_number
    ["0"; ""; " 50 "; "abc"; "1e3"; "-2.5"; "0x1f"; "12px"; "Infinity"; "."; "5."]%string
  = [Fin 0; Fin 0; Fin 50; NaN; Fin 1000; Fin (-5 # 2); Fin 31; NaN; PInf; NaN; Fin 5].
Proof. vm_compute. reflexivity. Qed.

Example parse_float_samples :
  map Text.parse_float ["100.2"; "12px"; "abc"; "1e"; " .5x"]%string
  = [Fin (501 # 5); Fin 12; NaN; Fin 1; Fin (1 # 2)].
Proof. vm_compute. reflexivity. Qed.

Example toFixed8_samples :
  map Aggregator.toFixed8
    [Fin 100; Fin (1 # 2); Fin (-(1 # 1000000000)); Fin (5 # 1000000000); Fin 0]
  = map Aggregator.Rendered
      ["100.00000000"; "0.50000000"; "-0.00000000"; "0.00000001"; "0.00000000"]%string.
Proof. vm_compute. reflexivity. Qed.

(* ------------------------------------------------------------------ *)
(** ** Facts about numbers *)

Section NumFacts.

Lemma add_fin (a b : Q) : Num.add (Fin a) (Fin b) = Fin (Qred (a + b)).
Proof. reflexivity. Qed.

Lemma neg_fin (a : Q) : Num.neg (Fin a) = Fin (Qred (- a)).
Proof. reflexivity. Qed.

Lemma sub_fin (a b : Q) : Num.sub (Fin a) (Fin b) = Fin (Qred (a + Qred (- b))).
Proof. reflexivity. Qed.

Lemma lt_fin (a b : Q) : Num.lt (Fin a) (Fin b) = negb (Qle_bool b a).
Proof. reflexivity. Qed.

Lemma ge_fin (a b : Q) : Num.ge (Fin a) (Fin b) = Qle_bool b a.
Proof. unfold Num.ge. rewrite lt_fin. apply negb_involutive. Qed.

Lemma le_fin (a b : Q) : Num.le (Fin a) (Fin b) = Qle_bool a b.
Proof. unfold Num.le. apply ge_fin. Qed.

Lemma lt_excludes_ge (x y : JsNum) : Num.lt x y = true -> Num.ge x y = false.
Proof.
  intros H. destruct x, y; simpl in *; try discriminate; try reflexivity;
    rewrite H; reflexivity.
Qed.

Lemma truthy_false_cases (x : JsNum) :
  Num.truthy x = false <-> x = NaN \/ exists q, x = Fin q /\ q == 0.
Proof.
  split.
  - destruct x; simpl; intros H; try discriminate.
    + now left.
    + right. exists q. split; [reflexivity|].
      apply Qeq_bool_iff. unfold qzero in H.
      destruct (Qeq_bool q 0); [reflexivity | discriminate].
  - intros [-> | (q & -> & Hq)]; simpl; [reflexivity|].
    unfold qzero. apply Qeq_bool_iff in Hq. now rewrite Hq.
Qed.

Lemma or_else_falsy (x d : JsNum) : Num.truthy x = false -> Num.or_else x d = d.
Proof. intros H. unfold Num.or_else. now rewrite H. Qed.

Lemma or_else_truthy (x d : JsNum) : Num.truthy x = true -> Num.or_else x d = x.
Proof. intros H. unfold Num.or_else. now rewrite H. Qed.

End NumFacts.

(* ------------------------------------------------------------------ *)
(** ** The trade store *)

Section StoreFacts.

Lemma find_id_some_has (k : string) (tbl : Table) (t : Trade) :
  find_id k tbl = Some t -> In t tbl /\ id t = k.
Proof.
  unfold find_id. intros H. apply find_some in H. destruct H as [Hin Hk].
  split; [assumption|]. unfold has_id in Hk. now apply String.eqb_eq.
Qed.

(** C3.  Inserting a trade whose id is already stored succeeds, leaves
    the whole table as it was, and in particular leaves the row stored
    under that id untouched, whatever the other fields of the new trade
    are; the same statement without [OR IGNORE] would fail. *)
Theorem insertTrade_idempotent (tbl : Table) (t stored : Trade)
    (Hdup : find_id (id t) tbl = Some stored) :
  insertTrade t tbl = inr tbl /\
  (forall tbl', insertTrade t tbl = inr tbl' ->
     find_id (id t) tbl' = Some stored) /\
  sql_insert Abort t tbl = inl (ConstraintPrimaryKey (id t)).
Proof.
  unfold insertTrade, sql_insert. rewrite Hdup. repeat split.
  intros tbl' H. injection H as <-. exact Hdup.
Qed.

(** A first insert stores the trade; repeating it changes nothing. *)
Lemma insertTrade_twice (tbl tbl1 : Table) (t : Trade) :
  insertTrade t tbl = inr tbl1 -> insertTrade t tbl1 = inr tbl1.
Proof.
  unfold insertTrade, sql_insert.
  destruct (find_id (id t) tbl) as [s|] eqn:E; intros H; injection H as <-.
  - now rewrite E.
  - assert (F : find_id (id t) (tbl ++ [t]) = Some t).
    { unfold find_id in *. induction tbl as [|x tbl IH]; simpl in *.
      - unfold has_id. now rewrite String.eqb_refl.
      - destruct (has_id (id t) x); [discriminate | now apply IH]. }
    now rewrite F.
Qed.

Lemma insertTrade_never_fails (tbl : Table) (t : Trade) :
  exists tbl', insertTrade t tbl = inr tbl' /\ incl tbl tbl'.
Proof.
  unfold insertTrade, sql_insert. destruct (find_id (id t) tbl).
  - exists tbl. split; [reflexivity | apply incl_refl].
  - exists (tbl ++ [t]). split; [reflexivity | apply incl_appl, incl_refl].
Qed.

End StoreFacts.

Lemma insertTrade_idempotent_witness :
  let t0 := mkTrade "BTCUSDT-binance-7" "binance" "BTCUSDT" (Fin 100) (Fin 1) sell (of_Z 5) in
  let t1 := mkTrade "BTCUSDT-binance-7" "binance" "BTCUSDT" (Fin 250) (Fin 3) buy (of_Z 9) in
  find_id (id t1) [t0] = Some t0 /\ insertTrade t1 [t0] = inr [t0].
Proof.
  intros t0 t1. split; [reflexivity|].
  apply (insertTrade_idempotent [t0] t1 (stored := t0)). reflexivity.
Defined.

(* ------------------------------------------------------------------ *)
(** ** The aggregator: which rows it reads *)

Section WindowFacts.
Import Aggregator.

Variables (now : Z) (sym exch : string) (periodMs bucketSize limit : JsNum).

Let since : JsNum := Num.sub (of_Z now) periodMs.

Lemma selected_not_older (t : Trade) :
  selected sym exch since t = true -> Num.lt (ts t) since = false.
Proof.
  unfold selected, sql_ge. intros H.
  apply andb_true_iff in H. destruct H as [_ H].
  destruct (Num.lt (ts t) since) eqn:E; [|reflexivity].
  apply lt_excludes_ge in E. congruence.
Qed.

Lemma select_skips_older (t : Trade) (before later : Table) :
  Num.lt (ts t) since = true ->
  select_trades sym exch since (before ++ t :: later)
  = select_trades sym exch since (before ++ later).
Proof.
  intros H. unfold select_trades. rewrite !filter_app. simpl.
  assert (E : selected sym exch since t = false).
  { destruct (selected sym exch since t) eqn:S; [|reflexivity].
    apply selected_not_older in S. congruence. }
  now rewrite E.
Qed.

(** C6.  When no stored trade matches the symbol, the exchange and the
    time window, [computeClusters] returns the empty sequence, and so
    does the handler built on it; both are total functions, so there is
    no error to raise. *)
Theorem empty_window_gives_no_clusters (tbl : Table)
    (Hnone : select_trades sym exch (Num.sub (of_Z now) periodMs) tbl = []) :
  computeClusters now tbl sym exch periodMs bucketSize limit = [] /\
  (forall q : Query,
     p_symbol (top_clusters_params q) = sym ->
     p_exchange (top_clusters_params q) = exch ->
     p_periodMs (top_clusters_params q) = periodMs ->
     top_clusters now tbl q = (sym, exch, [])).
Proof.
  split.
  - unfold computeClusters. rewrite Hnone. reflexivity.
  - intros q Hs He Hp. unfold top_clusters, computeClusters.
    rewrite Hs, He, Hp, Hnone. reflexivity.
Qed.

(** C7.  A stored trade whose timestamp is below [now - periodMs] makes
    no difference to the result: the table with it and the table without
    it give the same clusters.  Every row that is aggregated has a
    timestamp at or above [now - periodMs]. *)
Theorem old_trade_never_contributes (t : Trade) (before later : Table)
    (Hold : Num.lt (ts t) (Num.sub (of_Z now) periodMs) = true) :
  computeClusters now (before ++ t :: later) sym exch periodMs bucketSize limit
  = computeClusters now (before ++ later) sym exch periodMs bucketSize limit /\
  Forall (fun r => Num.ge (ts r) (Num.sub (of_Z now) periodMs) = true)
         (select_trades sym exch (Num.sub (of_Z now) periodMs) (before ++ t :: later)).
Proof.
  split.
  - unfold computeClusters. fold since.
    rewrite (select_skips_older t before later Hold). reflexivity.
  - apply Forall_forall. intros r Hr. unfold select_trades in Hr.
    apply filter_In in Hr. destruct Hr as [_ Hr]. unfold selected in Hr.
    apply andb_true_iff in Hr. exact (proj2 Hr).
Qed.

End WindowFacts.

Lemma empty_window_gives_no_clusters_witness :
  let tbl := [mkTrade "a" "binance" "BTCUSDT" (Fin 100) (Fin 1) buy (of_Z 100)] in
  select_trades "BTCUSDT" "binance" (Num.sub (of_Z 5000) (of_Z 1000)) tbl = [] /\
  Aggregator.computeClusters 5000 tbl "BTCUSDT" "binance" (of_Z 1000) (Fin 1) (of_Z 50) = [].
Proof.
  intros tbl. split; [reflexivity|].
  apply (empty_window_gives_no_clusters 5000 "BTCUSDT" "binance" (of_Z 1000) (Fin 1) (of_Z 50) tbl).
  reflexivity.
Defined.

Lemma old_trade_never_contributes_witness :
  let old := mkTrade "a" "binance" "BTCUSDT" (Fin 100) (Fin 7) buy (of_Z 3999) in
  let new := mkTrade "b" "binance" "BTCUSDT" (Fin 100) (Fin 1) buy (of_Z 4000) in
  Num.lt (ts old) (Num.sub (of_Z 5000) (of_Z 1000)) = true /\
  Aggregator.computeClusters 5000 ([] ++ old :: [new]) "BTCUSDT" "binance" (of_Z 1000) (Fin 1) (of_Z 50)
  = Aggregator.computeClusters 5000 ([] ++ [new]) "BTCUSDT" "binance" (of_Z 1000) (Fin 1) (of_Z 50).
Proof.
  intros old new. split; [reflexivity|].
  apply (old_trade_never_contributes 5000 "BTCUSDT" "binance" (of_Z 1000) (Fin 1) (of_Z 50)
           old [] [new]).
  reflexivity.
Defined.

(* ------------------------------------------------------------------ *)
(** ** The aggregator: ranking *)

Section Ranking.
Import Aggregator Terms.

Lemma after_finite (a b : Bucket) (x y : Q) :
  volume a = Fin x -> volume b = Fin y ->
  after by_volume a b = negb (Qle_bool y x).
Proof.
  intros Ha Hb. unfold after, by_volume. rewrite Ha, Hb, sub_fin, lt_fin.
  f_equal. apply eq_true_iff_eq. rewrite !Qle_bool_iff.
  rewrite !Qred_correct. split; intros H.
  - apply Qplus_le_l with (z := - x). now rewrite Qplus_opp_r.
  - apply Qplus_le_l with (z := - x) in H. now rewrite Qplus_opp_r in H.
Qed.

Lemma insert_perm {A : Type} (cmp : A -> A -> JsNum) (a : A) (l : list A) :
  Permutation (a :: l) (insert cmp a l).
Proof.
  induction l as [|b l IH]; simpl; [apply Permutation_refl|].
  destruct (after cmp a b); [|apply Permutation_refl].
  eapply Permutation_trans; [apply perm_swap|]. now apply perm_skip.
Qed.

Lemma sort_perm {A : Type} (cmp : A -> A -> JsNum) (l : list A) :
  Permutation l (sort cmp l).
Proof.
  induction l as [|a l IH]; simpl; [apply Permutation_refl|].
  eapply Permutation_trans; [apply perm_skip, IH | apply insert_perm].
Qed.

Lemma insert_descending (a : Bucket) (l : list Bucket) :
  fin_vol a -> Forall fin_vol l -> descending l ->
  descending (insert by_volume a l).
Proof.
  intros [x Hx] Hfin Hs. unfold descending in *.
  induction l as [|b l IH]; simpl.
  - constructor; constructor.
  - inversion Hfin as [|? ? [y Hy] Hfin']; subst.
    inversion Hs as [|? ? Hs' Hall]; subst.
    rewrite (after_finite a b Hx Hy).
    destruct (Qle_bool y x) eqn:E; simpl.
    + constructor; [assumption|]. constructor.
      * rewrite Hx, Hy, ge_fin. exact E.
      * apply Forall_forall. intros c Hc.
        pose proof (proj1 (Forall_forall _ _) Hall c Hc) as Hbc.
        pose proof (proj1 (Forall_forall _ _) Hfin' c Hc) as [z Hz].
        rewrite Hy, Hz, ge_fin in Hbc. rewrite Hx, Hz, ge_fin.
        apply Qle_bool_iff in E, Hbc. apply Qle_bool_iff.
        now apply Qle_trans with y.
    + constructor; [now apply IH|].
      apply Forall_forall. intros c Hc.
      apply (Permutation_in _ (Permutation_sym (insert_perm by_volume a l))) in Hc.
      destruct Hc as [<- | Hc].
      * rewrite Hx, Hy, ge_fin. apply Qle_bool_iff.
        apply Qlt_le_weak, Qnot_le_lt. intros H. apply Qle_bool_iff in H. congruence.
      * exact (proj1 (Forall_forall _ _) Hall c Hc).
Qed.

Lemma sort_descending (l : list Bucket) :
  Forall fin_vol l -> descending (sort by_volume l).
Proof.
  induction l as [|a l IH]; intros H; simpl.
  - constructor.
  - inversion H; subst. apply insert_descending; auto.
    apply Forall_forall. intros c Hc.
    apply (Permutation_in _ (Permutation_sym (sort_perm by_volume l))) in Hc.
    eapply Forall_forall; eauto.
Qed.

Lemma in_firstn {A : Type} (n : nat) (l : list A) (x : A) :
  In x (firstn n l) -> In x l.
Proof.
  intros H. rewrite <- (firstn_skipn n l). apply in_or_app. now left.
Qed.

Lemma firstn_descending (n : nat) (l : list Bucket) :
  descending l -> descending (firstn n l).
Proof.
  unfold descending. revert n. induction l as [|a l IH]; intros [|n] H; simpl;
    try constructor.
  - inversion H; subst. now apply IH.
  - inversion H as [|? ? _ Hall]; subst.
    apply Forall_forall. intros c Hc. apply in_firstn in Hc.
    exact (proj1 (Forall_forall _ _) Hall c Hc).
Qed.

End Ranking.

(* ------------------------------------------------------------------ *)
(** ** The aggregator: the bucket map *)

Section BucketMapFacts.
Import Aggregator Terms.

Lemma key_eqb_refl (k : Key) : key_eqb k k = true.
Proof.
  destruct k; simpl; [apply String.eqb_refl | apply Qeq_bool_iff, Qeq_refl].
Qed.

Lemma key_eqb_sym (a b : Key) : key_eqb a b = key_eqb b a.
Proof.
  destruct a, b; simpl; try reflexivity.
  - apply String.eqb_sym.
  - apply eq_true_iff_eq. rewrite !Qeq_bool_iff. split; intros H; now symmetry.
Qed.

Lemma key_eqb_trans (a b c : Key) :
  key_eqb a b = true -> key_eqb a c = key_eqb b c.
Proof.
  destruct a, b; simpl; try discriminate; intros H.
  - apply String.eqb_eq in H. now subst.
  - destruct c; [reflexivity|]. apply Qeq_bool_iff in H.
    apply eq_true_iff_eq. rewrite !Qeq_bool_iff. now rewrite H.
Qed.

Lemma map_get_set (k key : Key) (v : Bucket) (m : BucketMap) :
  map_get key (map_set k v m) = if key_eqb k key then Some v else map_get key m.
Proof.
  induction m as [|[k' v'] m IH]; simpl.
  - reflexivity.
  - destruct (key_eqb k' k) eqn:E; simpl.
    + rewrite (key_eqb_trans k' k key E). now destruct (key_eqb k key).
    + rewrite IH. destruct (key_eqb k' key) eqn:E'; [|reflexivity].
      destruct (key_eqb k key) eqn:F; [|reflexivity].
      pose proof (key_eqb_trans k key k' F) as T.
      rewrite (key_eqb_sym k k'), (key_eqb_sym key k') in T. congruence.
Qed.

Lemma map_get_in (key : Key) (m : BucketMap) (v : Bucket) :
  map_get key m = Some v -> In v (map_values m).
Proof.
  induction m as [|[k' v'] m IH]; simpl; [discriminate|].
  destruct (key_eqb k' key); intros H.
  - injection H as ->. now left.
  - right. now apply IH.
Qed.

Lemma map_set_values (k : Key) (v : Bucket) (m : BucketMap) (b : Bucket) :
  In b (map_values (map_set k v m)) -> b = v \/ In b (map_values m).
Proof.
  induction m as [|[k' v'] m IH]; simpl.
  - intros [<- | []]. now left.
  - destruct (key_eqb k' k); simpl.
    + intros [<- | H]; [now left | right; now right].
    + intros [<- | H]; [right; now left|].
      destruct (IH H) as [-> | H']; [now left | right; now right].
Qed.

Lemma map_set_keys (k : Key) (v : Bucket) (m : BucketMap) (e : Key * Bucket) :
  In e (map_set k v m) -> key_eqb k (fst e) = true \/ exists e', In e' m /\ fst e' = fst e.
Proof.
  induction m as [|[k' v'] m IH]; simpl.
  - intros [<- | []]. left. apply key_eqb_refl.
  - destruct (key_eqb k' k) eqn:E; simpl.
    + intros [<- | H].
      * right. exists (k', v'). split; [now left | reflexivity].
      * right. exists e. split; [now right | reflexivity].
    + intros [<- | H].
      * right. exists (k', v'). split; [now left | reflexivity].
      * destruct (IH H) as [Hk | (e' & He' & Hf)]; [now left|].
        right. exists e'. split; [now right | assumption].
Qed.

Lemma map_set_distinct (k : Key) (v : Bucket) (m : BucketMap) :
  distinct_keys m -> distinct_keys (map_set k v m).
Proof.
  induction m as [|[k' v'] m IH]; simpl.
  - intros _. split; [constructor | exact I].
  - intros [Hall Hd]. destruct (key_eqb k' k) eqn:E; simpl.
    + split; assumption.
    + split; [|now apply IH].
      apply Forall_forall. intros e He.
      destruct (map_set_keys k v m e He) as [Hk | (e' & He' & Hf)].
      * rewrite key_eqb_sym, <- (key_eqb_trans k (fst e) k' Hk), key_eqb_sym.
        exact E.
      * rewrite <- Hf. exact (proj1 (Forall_forall _ _) Hall e' He').
Qed.

Lemma distinct_lookup (m : BucketMap) (k : Key) (v : Bucket) :
  distinct_keys m -> In (k, v) m -> map_get k m = Some v.
Proof.
  induction m as [|[k' v'] m IH]; simpl; [intros _ []|].
  intros [Hall Hd] [H | H].
  - injection H as -> ->. now rewrite key_eqb_refl.
  - pose proof (proj1 (Forall_forall _ _) Hall (k, v) H) as Hne. simpl in Hne.
    rewrite Hne. now apply IH.
Qed.

Variable bucketSize : JsNum.

Lemma fill_snoc (rows : list Trade) (r : Trade) :
  fill bucketSize (rows ++ [r]) = accumulate bucketSize (fill bucketSize rows) r.
Proof. unfold fill. now rewrite fold_left_app. Qed.

Lemma fill_distinct (rows : list Trade) : distinct_keys (fill bucketSize rows).
Proof.
  induction rows as [|r rows IH] using rev_ind.
  - exact I.
  - rewrite fill_snoc. unfold accumulate. now apply map_set_distinct.
Qed.

Lemma rows_with_snoc (key : Key) (rows : list Trade) (r : Trade) :
  rows_with bucketSize key (rows ++ [r])
  = rows_with bucketSize key rows
    ++ (if key_eqb (key_of bucketSize r) key then [r] else []).
Proof. unfold rows_with. rewrite filter_app. reflexivity. Qed.

Lemma rows_with_equiv (k key : Key) (rows : list Trade) :
  key_eqb k key = true ->
  rows_with bucketSize k rows = rows_with bucketSize key rows.
Proof.
  intros H. unfold rows_with. apply filter_ext. intros r.
  rewrite (key_eqb_sym _ k), (key_eqb_sym _ key). now apply key_eqb_trans.
Qed.

Lemma total_qty_snoc (rows : list Trade) (r : Trade) :
  total_qty (rows ++ [r]) = Num.add (total_qty rows) (column (qty r)).
Proof. unfold total_qty. now rewrite fold_left_app. Qed.

Lemma latest_ts_snoc (rows : list Trade) (r : Trade) :
  latest_ts (rows ++ [r]) = Num.max (latest_ts rows) (column (ts r)).
Proof. unfold latest_ts. now rewrite fold_left_app. Qed.

(** What the loop leaves under each key: nothing when no row has the
    key, and otherwise the bucket made of the rows that have it. *)
Lemma fill_lookup (rows : list Trade) (key : Key) :
  map_get key (fill bucketSize rows)
  = bucket_of bucketSize (rows_with bucketSize key rows).
Proof.
  revert key. induction rows as [|r rows IH] using rev_ind; intros key.
  - reflexivity.
  - rewrite fill_snoc, rows_with_snoc. unfold accumulate.
    fold (key_of bucketSize r). rewrite map_get_set.
    destruct (key_eqb (key_of bucketSize r) key) eqn:E.
    + rewrite (IH (key_of bucketSize r)), (rows_with_equiv _ _ rows E).
      destruct (rows_with bucketSize key rows) as [|r0 same] eqn:S; simpl.
      * reflexivity.
      * change (r0 :: same ++ [r]) with ((r0 :: same) ++ [r]).
        now rewrite total_qty_snoc, latest_ts_snoc.
    + rewrite app_nil_r. apply IH.
Qed.

Lemma fill_finite (rows : list Trade) :
  finite_quantities rows -> Forall fin_vol (map_values (fill bucketSize rows)).
Proof.
  induction rows as [|r rows IH] using rev_ind; intros H.
  - constructor.
  - unfold finite_quantities in H. apply Forall_app in H. destruct H as [H Hr].
    specialize (IH H). rewrite fill_snoc. unfold accumulate.
    apply Forall_forall. intros b Hb. apply map_set_values in Hb.
    destruct Hb as [-> | Hb]; [|exact (proj1 (Forall_forall _ _) IH b Hb)].
    inversion Hr as [|? ? Hq _]; subst.
    destruct (column (qty r)) as [| | |q] eqn:Q; try discriminate.
    destruct (map_get _ _) as [v|] eqn:G; unfold fin_vol; cbn [volume].
    + apply map_get_in in G.
      destruct (proj1 (Forall_forall _ _) IH v G) as [x Hx].
      rewrite Hx. eexists. apply add_fin.
    + eexists. apply add_fin.
Qed.

End BucketMapFacts.

(* ------------------------------------------------------------------ *)
(** ** The aggregator: bucketing and ranking of the result *)

Section AggregatorTheorems.
Import Aggregator Terms.

Lemma select_finite (sym exch : string) (since : JsNum) (tbl : Table) :
  finite_quantities tbl -> finite_quantities (select_trades sym exch since tbl).
Proof.
  unfold finite_quantities, select_trades. intros H.
  apply Forall_forall. intros t Ht. apply filter_In in Ht.
  exact (proj1 (Forall_forall _ _) H t (proj1 Ht)).
Qed.

Lemma clusters_descending (rows : list Trade) (bucketSize limit : JsNum) :
  finite_quantities rows -> descending (clusters_of rows bucketSize limit).
Proof.
  intros H. unfold clusters_of. destruct rows as [|r rows]; [constructor|].
  unfold slice0. apply firstn_descending, sort_descending.
  now apply fill_finite.
Qed.

Lemma slice0_length {A : Type} (limit : JsNum) (l : list A) :
  Num.le (Fin 0) limit = true ->
  Num.le (of_Z (Z.of_nat (List.length (slice0 limit l)))) limit = true.
Proof.
  destruct limit as [| | |q]; try discriminate; [reflexivity|].
  unfold of_Z. rewrite !le_fin. intros H.
  unfold slice0, slice_end, Num.trunc. rewrite H.
  apply Qle_bool_iff in H. apply Qle_bool_iff.
  assert (K : (0 <= Qfloor q)%Z) by (apply (Qfloor_resp_le 0 q H)).
  destruct (Qfloor q <? 0)%Z eqn:E; [apply Z.ltb_lt in E; lia|].
  rewrite length_firstn.
  apply Qle_trans with (inject_Z (Qfloor q)); [|apply Qfloor_le].
  rewrite <- Zle_Qle. lia.
Qed.

Lemma clusters_length (rows : list Trade) (bucketSize limit : JsNum) :
  Num.le (Fin 0) limit = true ->
  Num.le (of_Z (Z.of_nat (List.length (clusters_of rows bucketSize limit)))) limit = true.
Proof.
  intros H. unfold clusters_of. destruct rows as [|r rows].
  - exact H.
  - now apply slice0_length.
Qed.

(** C5.  Over a table whose quantities are finite numbers the result of
    [computeClusters] is in descending order of volume; for a limit that
    is not negative its length is at most the limit.  Three buckets of
    volumes 5, 20 and 1 with limit 2 give the bucket of volume 20 and
    then the bucket of volume 5. *)
Theorem top_clusters_ranked (now : Z) (tbl : Table) (sym exch : string)
    (periodMs bucketSize limit : JsNum) :
  (finite_quantities tbl ->
   descending (computeClusters now tbl sym exch periodMs bucketSize limit)) /\
  (Num.le (Fin 0) limit = true ->
   Num.le (of_Z (Z.of_nat (List.length
       (computeClusters now tbl sym exch periodMs bucketSize limit)))) limit = true) /\
  computeClusters 1000
    [mkTrade "a" "binance" "BTCUSDT" (Fin 100) (Fin 5) buy (of_Z 900);
     mkTrade "b" "binance" "BTCUSDT" (Fin 200) (Fin 20) sell (of_Z 950);
     mkTrade "c" "binance" "BTCUSDT" (Fin 300) (Fin 1) buy (of_Z 990)]
    "BTCUSDT" "binance" (of_Z 500) (Fin 1) (of_Z 2)
  = [mkBucket (Fin 200) (Fin 20) (Fin 950); mkBucket (Fin 100) (Fin 5) (Fin 900)].
Proof.
  split; [|split].
  - intros H. unfold computeClusters.
    now apply clusters_descending, select_finite.
  - intros H. unfold computeClusters. now apply clusters_length.
  - vm_compute. reflexivity.
Qed.




End AggregatorTheorems.

Section BucketPrice.
Import Aggregator Terms.


End BucketPrice.

(* ------------------------------------------------------------------ *)
(** ** The aggregator: keys tell bucket prices apart *)

Section KeyFacts.
Import Aggregator Terms.

Lemma chars_of_chars (l : list ascii) : Text.chars (Text.of_chars l) = l.
Proof. induction l as [|c l IH]; simpl; [reflexivity | now rewrite IH]. Qed.

Lemma of_chars_chars (s : string) : Text.of_chars (Text.chars s) = s.
Proof. induction s as [|c s IH]; simpl; [reflexivity | now rewrite IH]. Qed.














End KeyFacts.

Section KeysApart.
Import Aggregator Terms.








End KeysApart.

Section BucketingTheorem.
Import Aggregator Terms.


End BucketingTheorem.


Lemma top_clusters_ranked_witness :
  let tbl := [mkTrade "a" "binance" "BTCUSDT" (Fin 100) (Fin 5) buy (of_Z 900);
              mkTrade "b" "binance" "BTCUSDT" (Fin 200) (Fin 20) sell (of_Z 950);
              mkTrade "c" "binance" "BTCUSDT" (Fin 300) (Fin 1) buy (of_Z 990)] in
  let result := Aggregator.computeClusters 1000 tbl "BTCUSDT" "binance"
                  (of_Z 500) (Fin 1) (of_Z 2) in
  Terms.finite_quantities tbl /\ Num.le (Fin 0) (of_Z 2) = true /\
  Terms.descending result /\
  Num.le (of_Z (Z.of_nat (List.length result))) (of_Z 2) = true.
Proof.
  intros tbl result.
  assert (F : Terms.finite_quantities tbl) by (repeat constructor).
  pose proof (top_clusters_ranked 1000 tbl "BTCUSDT" "binance" (of_Z 500) (Fin 1) (of_Z 2))
    as [Hsorted [Hlen _]].
  split; [exact F|]. split; [reflexivity|].
  split; [exact (Hsorted F) | exact (Hlen eq_refl)].
Defined.

(* ------------------------------------------------------------------ *)
(** ** The connectors: side normalization *)

Section SideNormalization.
Import Backfill.
Local Open Scope string_scope.












End SideNormalization.


(* ------------------------------------------------------------------ *)
(** ** The request boundary: numeric parameters and the exchange name *)

Section Boundary.
Import Aggregator Backfill Run.
Local Open Scope string_scope.

Lemma defaulted_falsy (v : JsVal) : defaulted v -> Num.truthy (to_number v) = false.
Proof.
  intros [-> | [H | (q & H & Hq)]].
  - reflexivity.
  - now rewrite H.
  - apply truthy_false_cases. right. now exists q.
Qed.

Lemma number_or_default (v : JsVal) (d : JsNum) : defaulted v -> number_or v d = d.
Proof. intros H. unfold number_or. now apply or_else_falsy, defaulted_falsy. Qed.

Lemma backfill_same_range (env : Env) (b b' : Body) (w : World) :
  b_symbol b = b_symbol b' -> b_exchange b = b_exchange b' ->
  range_start (clock w) b = range_start (clock w) b' ->
  range_end (clock w) b = range_end (clock w) b' ->
  backfill env b w = backfill env b' w.
Proof.
  intros Hs He Hstart Hend. unfold backfill, backfill_within.
  now rewrite Hs, He, Hstart, Hend.
Qed.

Lemma backfill_400_iff (env : Env) (b : Body) (w : World) :
  fst (backfill env b w) = Error400 <->
  present (b_symbol b) = None \/ present (b_exchange b) = None.
Proof.
  unfold backfill, backfill_within.
  destruct (present (b_symbol b)) as [sym|], (present (b_exchange b)) as [exch|];
    simpl; try (split; [intros _|reflexivity]; auto; fail).
  destruct (dispatch _ env sym exch _ _ w) as [[u|e|] w']; simpl;
    split; try discriminate; intros [H | H]; discriminate.
Qed.

(** C10.  A numeric parameter that is left out, is not a number, or is
    zero is replaced by its default and the request is served: [limit]
    becomes 50, [periodMs] 86,400,000 and [bucket] 1 in
    [GET /api/top-clusters]; [startTs] becomes now minus 24 hours and
    [endTs] now in [POST /api/backfill], where such a value changes
    nothing in the run compared with leaving the field out, and where
    only a missing symbol or exchange is answered with status 400. *)
Theorem numeric_parameters_default :
  (forall q : Query,
     (defaulted (q_limit q) -> p_limit (top_clusters_params q) = of_Z 50) /\
     (defaulted (q_periodMs q) -> p_periodMs (top_clusters_params q) = of_Z 86400000) /\
     (defaulted (q_bucket q) -> p_bucket (top_clusters_params q) = Fin 1)) /\
  (forall (now : Z) (tbl : Table) (q : Query),
     defaulted (q_limit q) -> defaulted (q_periodMs q) -> defaulted (q_bucket q) ->
     top_clusters now tbl q
     = top_clusters now tbl (mkQuery (q_symbol q) (q_exchange q) JUndef JUndef JUndef)) /\
  (forall (now : Z) (b : Body),
     (defaulted (startTs b) -> range_start now b = of_Z (now - 86400000)) /\
     (defaulted (endTs b) -> range_end now b = of_Z now)) /\
  (forall (env : Env) (b : Body) (w : World),
     defaulted (startTs b) -> defaulted (endTs b) ->
     backfill env b w = backfill env (mkBody (b_symbol b) (b_exchange b) JUndef JUndef) w) /\
  (forall (env : Env) (sym exch : option string) (other : JsVal) (w : World),
     backfill env (mkBody sym exch (JNum (Fin 0)) other) w
     = backfill env (mkBody sym exch JUndef other) w /\
     backfill env (mkBody sym exch other (JNum (Fin 0))) w
     = backfill env (mkBody sym exch other JUndef) w) /\
  (forall (env : Env) (b : Body) (w : World),
     fst (backfill env b w) = Error400 <->
     present (b_symbol b) = None \/ present (b_exchange b) = None) /\
  (forall v : JsVal,
     In v [JUndef; JStr "abc"; JStr "12px"; JStr "0"; JStr ""; JNum (Fin 0);
           JNum NaN; JNull; JBool false; JObj []; JArr []] ->
     defaulted v).
Proof.
  split; [|split; [|split; [|split; [|split; [|split]]]]].
  - intros q. unfold top_clusters_params. cbn [p_limit p_periodMs p_bucket].
    repeat split; intros H; now apply number_or_default.
  - intros now tbl q Hl Hp Hb. unfold top_clusters, top_clusters_params.
    cbn [p_symbol p_exchange p_limit p_periodMs p_bucket q_symbol q_exchange
         q_limit q_periodMs q_bucket].
    now rewrite !(number_or_default _ Hl), !(number_or_default _ Hp),
                !(number_or_default _ Hb).
  - intros now b. unfold range_start, range_end.
    split; intros H; now apply number_or_default.
  - intros env b w Hs He. apply backfill_same_range; try reflexivity.
    + unfold range_start. cbn [startTs]. now rewrite (number_or_default _ Hs).
    + unfold range_end. cbn [endTs]. now rewrite (number_or_default _ He).
  - intros env sym exch other w. split; apply backfill_same_range; reflexivity.
  - intros env b w. apply backfill_400_iff.
  - intros v H. simpl in H.
    repeat (destruct H as [<- | H];
            [first [ left; reflexivity
                   | right; left; vm_compute; reflexivity
                   | right; right; exists 0; split; [vm_compute; reflexivity | reflexivity] ]|]).
    destruct H.
Qed.

(** C2 as the code has it.  A request that names a symbol and an
    exchange other than binance, okx and bybit is answered 200
    [{ok: true}]: no branch of the handler runs, nothing is fetched and
    nothing is stored. *)
Theorem unknown_exchange_is_accepted (env : Env) (b : Body) (w : World)
    (sym exch : string)
    (Hsym : present (b_symbol b) = Some sym)
    (Hexch : present (b_exchange b) = Some exch)
    (Hunknown : known_exchange exch = false) :
  backfill env b w = (Ok200, w).
Proof.
  unfold known_exchange in Hunknown.
  apply orb_false_iff in Hunknown. destruct Hunknown as [H Hbybit].
  apply orb_false_iff in H. destruct H as [Hbinance Hokx].
  unfold backfill, backfill_within. rewrite Hsym, Hexch.
  unfold dispatch. now rewrite Hbinance, Hokx, Hbybit.
Qed.

End Boundary.

Lemma numeric_parameters_default_witness :
  let q := Aggregator.mkQuery (Some "ETHUSDT"%string) None (JStr "0"%string) (JStr "abc"%string) JUndef in
  Run.defaulted (Aggregator.q_limit q) /\
  Aggregator.p_limit (Aggregator.top_clusters_params q) = of_Z 50.
Proof.
  intros q.
  assert (D : Run.defaulted (Aggregator.q_limit q)).
  { right. right. exists 0. split; [vm_compute; reflexivity | reflexivity]. }
  split; [exact D|].
  exact (proj1 (proj1 numeric_parameters_default q) D).
Defined.

Lemma unknown_exchange_is_accepted_witness :
  let b := Backfill.mkBody (Some "BTCUSDT"%string) (Some "kraken"%string) JUndef JUndef in
  Backfill.present (Backfill.b_symbol b) = Some "BTCUSDT"%string /\
  Backfill.present (Backfill.b_exchange b) = Some "kraken"%string /\
  Run.known_exchange "kraken"%string = false /\
  Backfill.backfill Scenario.unreachable b (Scenario.idle 0)
  = (Backfill.Ok200, Scenario.idle 0).
Proof.
  intros b. split; [reflexivity|]. split; [reflexivity|]. split; [reflexivity|].
  apply (unknown_exchange_is_accepted Scenario.unreachable b (Scenario.idle 0)
           (sym := "BTCUSDT"%string) (exch := "kraken"%string)); reflexivity.
Defined.

(** C2 as the spec words it fails: the exchange "kraken" has no
    connector and the call is answered 200. *)
Lemma unknown_exchange_not_rejected :
  ~ Run.rejects_unknown_exchange Scenario.unreachable
      (Backfill.mkBody (Some "BTCUSDT"%string) (Some "kraken"%string) JUndef JUndef)
      (Scenario.idle 0).
Proof.
  intros H. specialize (H "BTCUSDT"%string "kraken"%string eq_refl eq_refl eq_refl).
  vm_compute in H. discriminate.
Qed.

(* ------------------------------------------------------------------ *)
(** ** Retrying a fetch *)

Section Retry.
Import Backfill Run.

Variables (env : Env) (r : Request).

(** The world after one request that was answered or not. *)
Let sent (ok : bool) (w : World) : World :=
  mkWorld (db w) (clock w) (S (calls w)) (draws w) (log w ++ [Fetched r ok]).

Let slept (d : Z) (w : World) : World :=
  mkWorld (db w) (clock w + d) (calls w) (draws w) (log w ++ [Slept d]).

Lemma attempts_answered (waits : list Z) (w : World) (data : JsVal) :
  respond env (calls w) r = Some data ->
  attempts (axios_get env r) waits w = (Ret data, sent true w).
Proof.
  intros H. destruct waits; simpl; unfold axios_get; rewrite H; reflexivity.
Qed.

Lemma attempts_exhausted (w : World) :
  respond env (calls w) r = None ->
  attempts (axios_get env r) [] w = (Throw (FetchFailed r), sent false w).
Proof. intros H. simpl. unfold axios_get. rewrite H. reflexivity. Qed.

Lemma attempts_again (d : Z) (waits : list Z) (w : World) :
  respond env (calls w) r = None ->
  attempts (axios_get env r) (d :: waits) w
  = attempts (axios_get env r) waits (slept d (sent false w)).
Proof.
  intros H. simpl. unfold axios_get at 1. rewrite H. reflexivity.
Qed.

Lemma fetches_app (a b : list Event) : fetches (a ++ b) = (fetches a + fetches b)%nat.
Proof. unfold fetches. now rewrite filter_app, length_app. Qed.

(** What [attempts] adds to the log: at most one request per wait plus
    one, consecutive requests a wait apart; the database is not
    touched; a failure surfaces only when every wait has been used, and
    then each request of the stretch has failed. *)
Lemma attempts_log (least : Z) (waits : list Z) :
  Forall (fun d => (least <= d)%Z) waits ->
  forall w,
    exists new,
      log (snd (attempts (axios_get env r) waits w)) = log w ++ new /\
      (fetches new <= S (List.length waits))%nat /\
      spaced least new = true /\
      db (snd (attempts (axios_get env r) waits w)) = db w /\
      fst (attempts (axios_get env r) waits w) <> Timeout /\
      (forall x, fst (attempts (axios_get env r) waits w) = Throw x ->
         x = FetchFailed r /\
         fetches new = S (List.length waits) /\
         (forall ev, In ev new -> ev = Fetched r false \/ exists d, ev = Slept d) /\
         exists before, new = before ++ [Fetched r false]).
Proof.
  intros Hw. induction Hw as [|d waits Hd Hw IH]; intros w.
  - destruct (respond env (calls w) r) as [data|] eqn:E.
    + rewrite (attempts_answered [] w E). exists [Fetched r true]. cbn.
      split; [reflexivity|]. split; [lia|]. split; [reflexivity|].
      split; [reflexivity|]. split; discriminate.
    + rewrite (attempts_exhausted w E). exists [Fetched r false]. cbn.
      split; [reflexivity|]. split; [lia|]. split; [reflexivity|].
      split; [reflexivity|]. split; [discriminate|].
      intros x H. injection H as <-.
      split; [reflexivity|]. split; [reflexivity|].
      split; [intros ev [<- | []]; now left | exists []; reflexivity].
  - destruct (respond env (calls w) r) as [data|] eqn:E.
    + rewrite (attempts_answered (d :: waits) w E). exists [Fetched r true]. cbn.
      split; [reflexivity|]. split; [lia|]. split; [reflexivity|].
      split; [reflexivity|]. split; discriminate.
    + rewrite (attempts_again d waits w E).
      destruct (IH (slept d (sent false w))) as (new & Hlog & Hn & Hsp & Hdb & Hfin & Hthrow).
      exists (Fetched r false :: Slept d :: new).
      split; [rewrite Hlog; cbn; now rewrite <- !app_assoc|].
      split; [unfold fetches in *; cbn; cbn in Hn; lia|].
      split; [cbn; rewrite Hsp; apply andb_true_iff; split;
              [now apply Z.leb_le | reflexivity]|].
      split; [rewrite Hdb; reflexivity|].
      split; [assumption|].
      intros x Hx. destruct (Hthrow x Hx) as (Hr & Hcount & Hall & before & Hb).
      split; [assumption|].
      split; [unfold fetches in *; cbn; cbn in Hcount; lia|].
      split.
      * intros ev [<- | [<- | Hin]]; [now left | right; now exists d | now apply Hall].
      * exists (Fetched r false :: Slept d :: before). now rewrite Hb.
Qed.

End Retry.

Section RetryBudgets.
Import Backfill Run.

Lemma sends_at_most_log {A : Type} (m : M A) (n : nat) :
  (forall w, exists new,
      log (snd (m w)) = log w ++ new /\ (fetches new <= n)%nat) ->
  sends_at_most n m.
Proof.
  intros H w. destruct (H w) as (new & Hlog & Hn).
  rewrite Hlog, fetches_app. lia.
Qed.

(** C8 as the code has it.  Each window of a Binance backfill is
    requested once and, while the request fails, up to three more
    times, four attempts in all, consecutive attempts at least 500 ms
    apart; a failure surfaces only after the fourth attempt has failed.
    The OKX and Bybit fetches are made once and retried up to twice,
    three attempts in all, at least 1000 ms apart. *)
Theorem retry_attempt_budgets (env : Env) (sym instId : string) (s e : JsNum)
    (w : World) :
  (exists new,
     log (snd (binance_fetch env sym s e w)) = log w ++ new /\
     (fetches new <= 4)%nat /\ spaced 500 new = true /\
     (forall x, fst (binance_fetch env sym s e w) = Throw x ->
        fetches new = 4%nat /\
        forall ev, In ev new ->
          ev = Fetched (BinanceAggTrades sym s e 1000) false \/ exists d, ev = Slept d)) /\
  (exists new,
     log (snd (okx_fetch env instId w)) = log w ++ new /\
     (fetches new <= 3)%nat /\ spaced 1000 new = true /\
     (forall x, fst (okx_fetch env instId w) = Throw x -> fetches new = 3%nat)) /\
  (exists new,
     log (snd (bybit_fetch env sym w)) = log w ++ new /\
     (fetches new <= 3)%nat /\ spaced 1000 new = true /\
     (forall x, fst (bybit_fetch env sym w) = Throw x -> fetches new = 3%nat)) /\
  sends_at_most 4 (binance_fetch env sym s e) /\
  sends_at_most 3 (okx_fetch env instId) /\
  sends_at_most 3 (bybit_fetch env sym).
Proof.
  assert (B : Forall (fun d => (500 <= d)%Z) (retry_timeouts 3 500))
    by (repeat constructor; discriminate).
  assert (O : Forall (fun d => (1000 <= d)%Z) (retry_timeouts 2 1000))
    by (repeat constructor; discriminate).
  split; [|split; [|split; [|split; [|split]]]].
  - destruct (attempts_log env (BinanceAggTrades sym s e 1000) B w)
      as (new & Hlog & Hn & Hsp & _ & _ & Hthrow).
    exists new. split; [assumption|]. split; [assumption|]. split; [assumption|].
    intros x H. destruct (Hthrow x H) as (_ & Hc & Hall & _). now split.
  - destruct (attempts_log env (OKXTrades instId 100) O w)
      as (new & Hlog & Hn & Hsp & _ & _ & Hthrow).
    exists new. split; [assumption|]. split; [assumption|]. split; [assumption|].
    intros x H. now destruct (Hthrow x H) as (_ & Hc & _).
  - destruct (attempts_log env (BybitTrades sym 200) O w)
      as (new & Hlog & Hn & Hsp & _ & _ & Hthrow).
    exists new. split; [assumption|]. split; [assumption|]. split; [assumption|].
    intros x H. now destruct (Hthrow x H) as (_ & Hc & _).
  - apply sends_at_most_log. intros w'.
    destruct (attempts_log env (BinanceAggTrades sym s e 1000) B w')
      as (new & Hlog & Hn & _).
    exists new. split; assumption.
  - apply sends_at_most_log. intros w'.
    destruct (attempts_log env (OKXTrades instId 100) O w')
      as (new & Hlog & Hn & _).
    exists new. split; assumption.
  - apply sends_at_most_log. intros w'.
    destruct (attempts_log env (BybitTrades sym 200) O w')
      as (new & Hlog & Hn & _).
    exists new. split; assumption.
Qed.

End RetryBudgets.

(** C8 as the spec words it fails: when every request fails, a Binance
    window is requested four times and the OKX and Bybit endpoints three
    times each. *)
Lemma three_and_two_attempts_exceeded :
  ~ Run.three_and_two_attempts Scenario.unreachable "BTCUSDT" (of_Z 0) (of_Z 3599999) /\
  ~ Run.sends_at_most 3
      (Backfill.binance_fetch Scenario.unreachable "BTCUSDT" (of_Z 0) (of_Z 3599999)) /\
  ~ Run.sends_at_most 2 (Backfill.okx_fetch Scenario.unreachable "BTC-USDT-SWAP") /\
  ~ Run.sends_at_most 2 (Backfill.bybit_fetch Scenario.unreachable "BTCUSDT").
Proof.
  assert (A : ~ Run.sends_at_most 3
      (Backfill.binance_fetch Scenario.unreachable "BTCUSDT" (of_Z 0) (of_Z 3599999))).
  { intros H. specialize (H (Scenario.idle 0)). vm_compute in H. lia. }
  split; [intros [H _]; exact (A H)|].
  split; [exact A|].
  split; intros H; specialize (H (Scenario.idle 0)); vm_compute in H; lia.
Qed.

(* ------------------------------------------------------------------ *)
(** ** The window loop of the Binance branch *)

Section WindowBody.
Import Backfill Run.

Variables (env : Env) (sym : string).

Lemma toISOString_outcome (x : JsNum) (w : World) :
  (toISOString x w = (Ret tt, w) /\
   exists q, x = Fin q /\ Qabs q <= inject_Z 8640000000000000) \/
  exists what, toISOString x w = (Throw (RangeError what), w).
Proof.
  destruct x as [| | |q]; simpl; try (right; eexists; reflexivity).
  destruct (Qle_bool (Qabs q) (inject_Z 8640000000000000)) eqn:E.
  - left. split; [reflexivity|]. exists q. split; [reflexivity|].
    now apply Qle_bool_iff.
  - right. eexists. reflexivity.
Qed.

Lemma binance_trade_quiet : quiet (binance_trade env sym).
Proof.
  intros t w w' o.
  unfold binance_trade, bind, object_of, or_random, or_now, Math_random,
    Date_now, bind, ret, throw.
  destruct (nullish t);
    [intros H; injection H as <- <-; repeat split; discriminate|].
  destruct (Js.truthy (or (or (get t "a") (get t "aggregateId")) (get t "tradeId")));
    destruct (Js.truthy (get t "T"));
    intros H; injection H as <- <-; repeat split; discriminate.
Qed.

Lemma okx_trade_quiet : quiet (okx_trade env sym).
Proof.
  intros t w w' o.
  unfold okx_trade, bind, object_of, or_random, Math_random,
    Date_now, bind, ret, throw.
  destruct (nullish t);
    [intros H; injection H as <- <-; repeat split; discriminate|].
  destruct (Js.truthy (or (get t "ts") (get t "tradeId")));
    intros H; injection H as <- <-; repeat split; discriminate.
Qed.

Lemma bybit_trade_quiet : quiet (bybit_trade env sym).
Proof.
  intros t w w' o.
  unfold bybit_trade, bind, object_of, or_random, or_now, Math_random,
    Date_now, bind, ret, throw.
  destruct (nullish t);
    [intros H; injection H as <- <-; repeat split; discriminate|].
  destruct (Js.truthy (get t "trade_time_ms"));
    intros H; injection H as <- <-; repeat split; discriminate.
Qed.

Lemma insert_outcome (t : Trade) (w : World) :
  exists w', insert t w = (Ret tt, w') /\ incl (db w) (db w') /\ log w' = log w.
Proof.
  unfold insert. destruct (insertTrade_never_fails (db w) t) as (tbl & E & I).
  rewrite E. eexists. split; [reflexivity|]. split; [exact I | reflexivity].
Qed.

Lemma insert_all_outcome (normalize : JsVal -> M Trade) (items : list JsVal) :
  quiet normalize ->
  forall (w w' : World) (o : Outcome unit),
    insert_all normalize items w = (o, w') ->
    incl (db w) (db w') /\ log w' = log w /\ o <> Timeout /\
    forall r, o <> Throw (FetchFailed r).
Proof.
  intros Q. induction items as [|t items IH]; intros w w' o; simpl.
  - unfold ret. intros H. injection H as <- <-.
    repeat split; try discriminate. apply incl_refl.
  - unfold bind at 1.
    destruct (normalize t w) as [ot w1] eqn:T.
    destruct (Q t w w1 ot T) as (Hdb & Hlog & Hfin & Hff).
    destruct ot as [trade|x|].
    + unfold bind at 1.
      destruct (insert_outcome trade w1) as (w2 & E & I & L). rewrite E.
      intros H. destruct (IH _ _ _ H) as (I' & L' & F' & X').
      split; [|split; [congruence|split; assumption]].
      rewrite <- Hdb. eapply incl_tran; eassumption.
    + intros H. injection H as <- <-.
      split; [rewrite Hdb; apply incl_refl|].
      split; [assumption|]. split; [discriminate|].
      intros r Hr. injection Hr as ->. now destruct (Hff r).
    + now destruct Hfin.
Qed.

(** Storing what a response holds cannot run out of budget. *)
Lemma store_items_finishes (normalize : JsVal -> M Trade) (v : JsVal) (w : World) :
  quiet normalize ->
  fst ((items <- iterate v ;; insert_all normalize items) w) <> Timeout.
Proof.
  intros Q. unfold bind.
  destruct (iterate v w) as [[items|x|] w1] eqn:I; cbn [fst]; try discriminate.
  - destruct (insert_all normalize items w1) as [o w2] eqn:A.
    now destruct (insert_all_outcome items Q _ A) as (_ & _ & F & _).
  - destruct v; discriminate.
Qed.

Lemma okx_branch_finishes (w : World) : fst (okx_branch env sym w) <> Timeout.
Proof.
  unfold okx_branch. unfold bind at 1.
  assert (O : Forall (fun d => (1000 <= d)%Z) (retry_timeouts 2 1000))
    by (repeat constructor; discriminate).
  destruct (attempts_log env (OKXTrades (okx_instId sym) 100) O w)
    as (new & _ & _ & _ & _ & Hfin & _).
  unfold okx_fetch, pRetry_default, pRetry, fetchOKXTrades.
  destruct (attempts _ _ w) as [[data|x|] w1]; cbn [fst] in *;
    [|discriminate|now destruct Hfin].
  destruct (Js.truthy data && Js.truthy (get data "data")); [|discriminate].
  apply store_items_finishes, okx_trade_quiet.
Qed.

Lemma bybit_branch_finishes (w : World) : fst (bybit_branch env sym w) <> Timeout.
Proof.
  unfold bybit_branch. unfold bind at 1.
  assert (O : Forall (fun d => (1000 <= d)%Z) (retry_timeouts 2 1000))
    by (repeat constructor; discriminate).
  destruct (attempts_log env (BybitTrades sym 200) O w)
    as (new & _ & _ & _ & _ & Hfin & _).
  unfold bybit_fetch, pRetry_default, pRetry, fetchBybitTrades.
  destruct (attempts _ _ w) as [[data|x|] w1]; cbn [fst] in *;
    [|discriminate|now destruct Hfin].
  destruct (Js.truthy data && Js.truthy (get data "result")); [|discriminate].
  apply store_items_finishes, bybit_trade_quiet.
Qed.

Variable end_ : JsNum.

(** What one window can do. *)
Lemma binance_window_outcome (s : JsNum) (w w1 : World) (o : Outcome unit) :
  binance_window env sym end_ s w = (o, w1) ->
  incl (db w) (db w1) /\
  o <> Timeout /\
  (forall u, o = Ret u -> exists q, s = Fin q /\ Qabs q <= inject_Z 8640000000000000) /\
  (forall r, o = Throw (FetchFailed r) ->
     r = window_request sym end_ s /\
     db w1 = db w /\
     exists new,
       log w1 = log w ++ new /\ fetches new = 4%nat /\
       (forall ev, In ev new -> ev = Fetched r false \/ exists d, ev = Slept d) /\
       exists before, new = before ++ [Fetched r false]).
Proof.
  unfold binance_window. unfold bind at 1.
  destruct (toISOString_outcome s w) as [[E Hs] | [what E]]; rewrite E.
  2:{ intros H. injection H as <- <-. split; [apply incl_refl|].
      repeat split; discriminate. }
  unfold bind at 1.
  destruct (toISOString_outcome (window_end end_ s) w) as [[E' _] | [what E']]; rewrite E'.
  2:{ intros H. injection H as <- <-. split; [apply incl_refl|].
      repeat split; discriminate. }
  unfold bind at 1.
  assert (B : Forall (fun d => (500 <= d)%Z) (retry_timeouts 3 500))
    by (repeat constructor; discriminate).
  destruct (attempts_log env (BinanceAggTrades sym s (window_end end_ s) 1000) B w)
    as (new & Hlog & Hn & _ & Hdb & Hfin & Hthrow).
  unfold binance_fetch, pRetry, fetchBinanceAggTrades.
  destruct (attempts _ _ w) as [od w2] eqn:A. cbn [fst snd] in *.
  destruct od as [data|x|].
  - (* the fetch returned *)
    unfold bind at 1.
    destruct ((if is_array data && Js.truthy (get data "length")
               then items <- iterate data;; insert_all (binance_trade env sym) items
               else ret tt) w2) as [oi w3] eqn:I.
    assert (K : incl (db w2) (db w3) /\ oi <> Timeout /\
                forall r, oi <> Throw (FetchFailed r)).
    { destruct (is_array data && Js.truthy (get data "length")) eqn:C.
      - destruct data; try discriminate. unfold bind, iterate, ret in I.
        destruct (insert_all_outcome _ binance_trade_quiet _ I) as (I1 & _ & I3 & I4).
        auto.
      - unfold ret in I. injection I as <- <-.
        split; [apply incl_refl|]. split; discriminate. }
    destruct K as (K1 & K2 & K3).
    destruct oi as [u|x|]; [| |now destruct K2].
    + unfold sleep. intros H. injection H as <- <-. cbn [db].
      split; [rewrite <- Hdb; exact K1|].
      split; [discriminate|]. split; [intros _ _; exact Hs|discriminate].
    + intros H. injection H as <- <-.
      split; [rewrite <- Hdb; exact K1|].
      split; [discriminate|]. split; [discriminate|].
      intros r Hr. injection Hr as ->. now destruct (K3 r).
  - (* the fetch failed for good *)
    intros H. injection H as <- <-.
    destruct (Hthrow x eq_refl) as (Hx & Hcount & Hall & Hlast).
    split; [rewrite Hdb; apply incl_refl|].
    split; [discriminate|]. split; [discriminate|].
    intros r Hr. injection Hr as ->. injection Hx as ->.
    split; [reflexivity|]. split; [assumption|].
    exists new. repeat split; assumption.
  - now destruct Hfin.
Qed.

End WindowBody.

Section WindowLoop.
Import Backfill Run.

Variables (env : Env) (sym : string) (end_ : JsNum).

Lemma horizon_above (q : Q) :
  Num.lt (Fin q) end_ = true ->
  Qabs q <= inject_Z 8640000000000000 ->
  q < horizon end_.
Proof.
  intros L V.
  assert (U : q < inject_Z 8640000000000001).
  { apply Qle_lt_trans with (inject_Z 8640000000000000).
    - apply Qle_trans with (Qabs q); [apply Qle_Qabs | assumption].
    - rewrite <- Zlt_Qlt. reflexivity. }
  destruct end_ as [| | |e]; try discriminate; cbn [horizon]; try assumption.
  rewrite lt_fin in L. apply negb_true_iff in L.
  assert (q < e).
  { apply Qnot_le_lt. intros H. apply Qle_bool_iff in H. congruence. }
  apply Q.min_glb_lt; assumption.
Qed.

Lemma next_window (q : Q) :
  exists q1, Num.add (Fin q) windowMs = Fin q1 /\ q1 == q + inject_Z 3600000.
Proof. eexists. split; [reflexivity | apply Qred_correct]. Qed.

(** The loop cannot exhaust a budget that is enough for its start. *)
Lemma windows_terminate (n : nat) :
  forall (s : JsNum) (w : World),
    enough n s end_ -> fst (binance_windows n env sym end_ s w) <> Timeout.
Proof.
  induction n as [|n IH]; intros s w [Hn Hq]; [lia|].
  cbn [binance_windows]. destruct (Num.lt s end_) eqn:L; [|discriminate].
  unfold bind. destruct (binance_window env sym end_ s w) as [o w1] eqn:Wd.
  destruct (binance_window_outcome env sym end_ s w Wd) as (_ & Hfin & Hret & _).
  destruct o as [u|x|]; [|discriminate|now destruct Hfin].
  destruct (Hret u eq_refl) as (q & -> & V).
  pose proof (horizon_above q L V) as Above.
  specialize (Hq q eq_refl eq_refl).
  apply IH. split.
  - destruct n; [|lia]. exfalso.
    change (inject_Z (Z.of_nat 1 - 1)) with 0 in Hq. lra.
  - intros q' E L'. destruct (next_window q) as (q1 & E1 & Hq1).
    rewrite E1 in E. injection E as <-. rewrite Hq1.
    replace (Z.of_nat (S n) - 1)%Z with (Z.of_nat n - 1 + 1)%Z in Hq by lia.
    rewrite inject_Z_plus in Hq.
    change (inject_Z 1) with 1 in Hq. change (inject_Z 3600000) with 3600000 in *.
    lra.
Qed.

Lemma ceiling_budget (top s : Q) :
  top <= s + inject_Z (Z.of_nat (S (Z.to_nat (Qceiling ((top - s) / inject_Z 3600000)))) - 1)
             * inject_Z 3600000.
Proof.
  set (x := (top - s) / inject_Z 3600000).
  assert (X : top - s == x * inject_Z 3600000).
  { unfold x. field. }
  pose proof (Qle_ceiling x) as C.
  assert (K : inject_Z (Qceiling x)
              <= inject_Z (Z.of_nat (S (Z.to_nat (Qceiling x))) - 1)).
  { rewrite <- Zle_Qle. lia. }
  assert (M : x * inject_Z 3600000
              <= inject_Z (Z.of_nat (S (Z.to_nat (Qceiling x))) - 1) * inject_Z 3600000).
  { apply Qmult_le_compat_r; [|discriminate]. now apply Qle_trans with (inject_Z (Qceiling x)). }
  lra.
Qed.

End WindowLoop.

Section WholeLoop.
Import Backfill Run.
Local Open Scope string_scope.

Variables (env : Env) (sym : string).

Lemma budget_is_enough (start end_ : JsNum) :
  enough (window_budget start end_) start end_.
Proof.
  unfold enough.
  destruct start as [| | |s]; cbn [window_budget];
    try (split; [lia | intros q H; discriminate]).
  destruct end_ as [| | |e]; cbn [window_budget];
    try (split; [lia | intros q _ H; discriminate]).
  - split; [lia|]. intros q E _. injection E as <-. cbn [horizon].
    apply ceiling_budget.
  - split; [lia|]. intros q E _. injection E as <-. cbn [horizon].
    apply ceiling_budget.
Qed.

(** From the start, the loop either ends where a reachable window has
    thrown, or exhausts its budget on the way there. *)
Lemma loop_stops_at_throw (end_ : JsNum) (x y : JsNum * World)
    (e : Exn) (w1 : World) :
  reaches env sym end_ x y ->
  Num.lt (fst y) end_ = true ->
  binance_window env sym end_ (fst y) (snd y) = (Throw e, w1) ->
  forall n,
    binance_windows n env sym end_ (fst x) (snd x) = (Throw e, w1) \/
    fst (binance_windows n env sym end_ (fst x) (snd x)) = Timeout.
Proof.
  intros R. induction R as [[s w] | s w w' z L Wd R IH]; intros Ly Hy n.
  - cbn [fst snd] in *. destruct n; cbn [binance_windows]; rewrite Ly.
    + now right.
    + left. unfold bind. now rewrite Hy.
  - cbn [fst snd] in *. destruct n; cbn [binance_windows]; rewrite L.
    + now right.
    + unfold bind. rewrite Wd. exact (IH Ly Hy n).
Qed.

Lemma reaches_keeps_trades (end_ : JsNum) (x y : JsNum * World) :
  reaches env sym end_ x y -> incl (db (snd x)) (db (snd y)).
Proof.
  intros R. induction R as [[s w] | s w w' z L Wd R IH]; [apply incl_refl|].
  cbn [fst snd] in *.
  destruct (binance_window_outcome env sym end_ s w Wd) as (I & _).
  eapply incl_tran; eassumption.
Qed.

(** The handler answers every request. *)
Lemma backfill_responds (b : Body) (w : World) :
  fst (backfill env b w) <> NoResponse.
Proof.
  unfold backfill, backfill_within.
  destruct (present (b_symbol b)) as [s|]; [|discriminate].
  destruct (present (b_exchange b)) as [x|]; [|discriminate].
  destruct (dispatch _ env s x _ _ w) as [[u|e|] w'] eqn:D; cbn [fst];
    try discriminate.
  exfalso. unfold dispatch in D.
  destruct (String.eqb x "binance").
  - apply (windows_terminate env s w
             (budget_is_enough (range_start (clock w) b) (range_end (clock w) b))).
    now rewrite D.
  - destruct (String.eqb x "okx").
    + apply (okx_branch_finishes env s w). now rewrite D.
    + destruct (String.eqb x "bybit").
      * apply (bybit_branch_finishes env s w). now rewrite D.
      * discriminate.
Qed.

End WholeLoop.

Section PartialFailure.
Import Backfill Run.
Local Open Scope string_scope.

(** C1 as the code has it.  When the loop of a Binance backfill arrives
    at a window whose fetch fails after all its attempts, the call ends
    there: the response is the server error carrying that failure, the
    final state is the one left by the four failed attempts, so that no
    later window is requested; the trades stored before the call and by
    the windows already completed are still stored. *)
Theorem failed_window_aborts_backfill (env : Env) (b : Body) (sym : string)
    (w0 : World) (s : JsNum) (w w1 : World) (r : Request)
    (Hsym : present (b_symbol b) = Some sym)
    (Hexch : present (b_exchange b) = Some "binance")
    (Hreach : reaches env sym (range_end (clock w0) b)
                (range_start (clock w0) b, w0) (s, w))
    (Hin : Num.lt s (range_end (clock w0) b) = true)
    (Hfail : binance_window env sym (range_end (clock w0) b) s w
             = (Throw (FetchFailed r), w1)) :
  backfill env b w0 = (Error500 (FetchFailed r), w1) /\
  r = window_request sym (range_end (clock w0) b) s /\
  db w1 = db w /\
  incl (db w0) (db w1) /\
  exists new,
    log w1 = (log w ++ new)%list /\ fetches new = 4%nat /\
    forall ev, In ev new -> ev = Fetched r false \/ exists d, ev = Slept d.
Proof.
  destruct (binance_window_outcome env sym _ s w Hfail) as (_ & _ & _ & Hthrow).
  destruct (Hthrow r eq_refl) as (Hr & Hdb & new & Hlog & Hcount & Hall & _).
  split; [|split; [assumption|split; [assumption|split]]].
  - unfold backfill, backfill_within. rewrite Hsym, Hexch. unfold dispatch.
    cbn [String.eqb Ascii.eqb Bool.eqb].
    pose proof (windows_terminate env sym w0
                  (budget_is_enough (range_start (clock w0) b)
                                    (range_end (clock w0) b))) as Hterm.
    destruct (loop_stops_at_throw Hreach Hin Hfail
                (window_budget (range_start (clock w0) b) (range_end (clock w0) b)))
      as [E | E]; cbn [fst snd] in E.
    + now rewrite E.
    + now destruct Hterm.
  - rewrite Hdb. exact (reaches_keeps_trades Hreach).
  - exists new. split; [assumption|]. split; assumption.
Qed.

End PartialFailure.

Lemma failed_window_aborts_backfill_witness :
  let env := Scenario.failing_at (2 * Scenario.hour) in
  let b := Backfill.mkBody (Some "BTCUSDT"%string) (Some "binance"%string)
             (JNum (of_Z Scenario.hour)) (JNum (of_Z (3 * Scenario.hour))) in
  let w0 := Scenario.idle 20000000 in
  let end_ := Backfill.range_end (Backfill.clock w0) b in
  let w := snd (Backfill.binance_window env "BTCUSDT" end_ (of_Z Scenario.hour) w0) in
  let s := of_Z (2 * Scenario.hour) in
  let r := Run.window_request "BTCUSDT" end_ s in
  let w1 := snd (Backfill.binance_window env "BTCUSDT" end_ s w) in
  Run.reaches env "BTCUSDT" end_ (Backfill.range_start (Backfill.clock w0) b, w0) (s, w) /\
  Num.lt s end_ = true /\
  Backfill.binance_window env "BTCUSDT" end_ s w = (Backfill.Throw (Backfill.FetchFailed r), w1) /\
  Backfill.backfill env b w0 = (Backfill.Error500 (Backfill.FetchFailed r), w1) /\
  map id (Backfill.db w1) = ["BTCUSDT-binance-3600000"%string].
Proof.
  intros env b w0 end_ w s r w1.
  assert (R : Run.reaches env "BTCUSDT" end_
                (Backfill.range_start (Backfill.clock w0) b, w0) (s, w)).
  { apply Run.reaches_next with (w1 := w).
    - reflexivity.
    - vm_compute. reflexivity.
    - apply Run.reaches_here. }
  assert (L : Num.lt s end_ = true) by reflexivity.
  assert (F : Backfill.binance_window env "BTCUSDT" end_ s w
              = (Backfill.Throw (Backfill.FetchFailed r), w1))
    by (vm_compute; reflexivity).
  split; [exact R|]. split; [exact L|]. split; [exact F|].
  split.
  - exact (proj1 (@failed_window_aborts_backfill env b "BTCUSDT"%string w0 s w w1 r
                    eq_refl eq_refl R L F)).
  - vm_compute. reflexivity.
Defined.

(** C1 as the spec words it fails: the first of two windows fails on
    every attempt, the second would return a trade; the call is answered
    with status 500 and the trade of the second window is not stored. *)
Lemma failed_window_is_not_skipped :
  let env := Scenario.failing_at Scenario.hour in
  let b := Backfill.mkBody (Some "BTCUSDT"%string) (Some "binance"%string)
             (JNum (of_Z Scenario.hour)) (JNum (of_Z (3 * Scenario.hour))) in
  let w0 := Scenario.idle 20000000 in
  ~ Run.skips_failed_window env b w0 /\
  (forall n, Backfill.respond env n
     (Backfill.BinanceAggTrades "BTCUSDT" (of_Z 7200000) (of_Z 10799999) 1000)
     = Some (JArr [Scenario.agg_trade 7200000 "100.2" "1" true 7200000])) /\
  fst (Backfill.backfill env b w0)
  = Backfill.Error500
      (Backfill.FetchFailed
         (Backfill.BinanceAggTrades "BTCUSDT" (of_Z 3600000) (of_Z 7199999) 1000)) /\
  Backfill.db (snd (Backfill.backfill env b w0)) = [] /\
  Run.fetches (Backfill.log (snd (Backfill.backfill env b w0))) = 4%nat.
Proof.
  intros env b w0. split; [|split; [|split; [|split]]].
  - intros H.
    specialize (H "BTCUSDT"%string eq_refl eq_refl (of_Z Scenario.hour)).
    destruct H as [Hok _].
    + vm_compute. left. reflexivity.
    + intros n. vm_compute. reflexivity.
    + vm_compute in Hok. discriminate.
  - intros n. vm_compute. reflexivity.
  - vm_compute. reflexivity.
  - vm_compute. reflexivity.
  - vm_compute. reflexivity.
Qed.

(* ================================================================== *)
(** * Further properties *)

(** ** The table under [insertTrade] *)

Section InsertLookup.
Import More.


Lemma find_id_in_ids (k : string) (tbl : Table) :
  find_id k tbl = None <-> ~ In k (map id tbl).
Proof.
  unfold find_id. induction tbl as [|a tbl IH]; simpl.
  - split; [intros _ [] | reflexivity].
  - unfold has_id at 1. destruct (String.eqb_spec (id a) k) as [E | N].
    + split; [discriminate | intros H; destruct H; now left].
    + rewrite IH. split.
      * intros H [E | I]; [now apply N | now apply H].
      * intros H I. apply H. now right.
Qed.


Lemma insert_shape (tbl tbl' : Table) (t : Trade) :
  insertTrade t tbl = inr tbl' ->
  (tbl' = tbl /\ In (id t) (map id tbl)) \/
  (tbl' = tbl ++ [t] /\ ~ In (id t) (map id tbl)).
Proof.
  unfold insertTrade, sql_insert.
  destruct (find_id (id t) tbl) as [old|] eqn:E; intros H; injection H as <-.
  - left. split; [reflexivity|]. apply find_id_some_has in E.
    destruct E as [I <-]. now apply in_map.
  - right. split; [reflexivity|]. now apply find_id_in_ids.
Qed.

Lemma grows_trans (P : Trade -> Prop) (a b c : Table) :
  grows P a b -> grows P b c -> grows P a c.
Proof.
  intros Hab Hbc. induction Hbc; [assumption|].
  eapply grows_one; [apply IHHbc; assumption | eassumption | eassumption].
Qed.

(** What a sequence of inserts can do to a table. *)
Lemma grows_appends (P : Trade -> Prop) (tbl tbl' : Table) :
  grows P tbl tbl' ->
  exists added,
    tbl' = tbl ++ added /\
    Forall P added /\
    (forall t, In t added -> ~ In (id t) (map id tbl)) /\
    (NoDup (map id tbl) -> NoDup (map id tbl')).
Proof.
  intros G. induction G as [tbl | tbl tbl' tbl'' t G IH Pt Hins].
  - exists []. rewrite app_nil_r. repeat split; auto; try (intros ? []).
  - destruct IH as (added & -> & HP & Hnew & Hnd).
    destruct (insert_shape _ _ Hins) as [[-> Hin] | [-> Hnot]].
    + exists added. repeat split; assumption.
    + exists (added ++ [t]). split; [now rewrite app_assoc|].
      split; [apply Forall_app; split; [assumption | now constructor]|].
      split.
      * intros x Hx. apply in_app_or in Hx. destruct Hx as [Hx | [<- | []]].
        -- now apply Hnew.
        -- intros Hid. apply Hnot. rewrite map_app. apply in_or_app. now left.
      * intros ND. specialize (Hnd ND). rewrite map_app. cbn [map].
        apply Permutation_NoDup with (l := id t :: map id (tbl ++ added)).
        -- apply Permutation_cons_append.
        -- now constructor.
Qed.

End InsertLookup.

(* ------------------------------------------------------------------ *)
(** ** What a backfill does to the table *)

Section DatabaseEffect.
Import Backfill Run More.
Local Open Scope string_scope.

Variable P : Trade -> Prop.

Lemma io_ret {A : Type} (a : A) : inserts_only P (ret a).
Proof. intros w w' o H. injection H as <- <-. constructor. Qed.

Lemma io_throw {A : Type} (e : Exn) : inserts_only P (@throw A e).
Proof. intros w w' o H. injection H as <- <-. constructor. Qed.

Lemma io_bind {A B : Type} (m : M A) (k : A -> M B) :
  inserts_only P m -> (forall a, inserts_only P (k a)) -> inserts_only P (bind m k).
Proof.
  intros Hm Hk w w' o. unfold bind.
  destruct (m w) as [[a|e|] w1] eqn:E; intros H.
  - eapply grows_trans; [exact (Hm _ _ _ E) | exact (Hk a _ _ _ H)].
  - injection H as <- <-. exact (Hm _ _ _ E).
  - injection H as <- <-. exact (Hm _ _ _ E).
Qed.

Lemma io_same_db {A : Type} (m : M A) :
  (forall w, db (snd (m w)) = db w) -> inserts_only P m.
Proof.
  intros H w w' o E. specialize (H w). rewrite E in H. cbn [snd] in H.
  rewrite H. constructor.
Qed.

Lemma io_sleep (d : Z) : inserts_only P (sleep d).
Proof. now apply io_same_db. Qed.

Lemma io_toISOString (x : JsNum) : inserts_only P (toISOString x).
Proof.
  apply io_same_db. intros w. destruct x as [| | |q]; try reflexivity.
  cbn [toISOString]. now destruct (Qle_bool _ _).
Qed.

Lemma io_iterate (v : JsVal) : inserts_only P (iterate v).
Proof. apply io_same_db. intros w. now destruct v. Qed.

Lemma io_attempts (env : Env) (r : Request) (waits : list Z) :
  inserts_only P (attempts (axios_get env r) waits).
Proof.
  apply io_same_db. intros w.
  assert (F : Forall (fun d => (Z.min 0 (fold_right Z.min 0 waits) <= d)%Z) waits).
  { clear. induction waits as [|d ws IH]; constructor.
    - cbn [fold_right]. lia.
    - eapply Forall_impl; [|exact IH]. cbn [fold_right]. intros a Ha. lia. }
  now destruct (attempts_log env r F w) as (_ & _ & _ & _ & Hdb & _).
Qed.

Lemma io_insert (t : Trade) : P t -> inserts_only P (insert t).
Proof.
  intros Pt w w' o. unfold insert.
  destruct (insertTrade t (db w)) as [e|tbl] eqn:E; intros H; injection H as <- <-.
  - constructor.
  - cbn [db]. eapply grows_one; [constructor | exact Pt | exact E].
Qed.

Lemma io_insert_all (normalize : JsVal -> M Trade) (items : list JsVal) :
  quiet normalize ->
  (forall t w w' tr, normalize t w = (Ret tr, w') -> P tr) ->
  inserts_only P (insert_all normalize items).
Proof.
  intros Q T. induction items as [|t items IH]; cbn [insert_all].
  - apply io_ret.
  - intros w w' o. unfold bind at 1.
    destruct (normalize t w) as [[tr|e|] w1] eqn:N; intros H.
    + destruct (Q _ _ _ _ N) as (Hdb & _). rewrite <- Hdb.
      revert H. apply io_bind; [apply io_insert; eapply T; eassumption|].
      intros _. exact IH.
    + injection H as <- <-. destruct (Q _ _ _ _ N) as (-> & _). constructor.
    + injection H as <- <-. destruct (Q _ _ _ _ N) as (-> & _). constructor.
Qed.

End DatabaseEffect.

Section BranchEffects.
Import Backfill Run More.
Local Open Scope string_scope.

Variables (env : Env) (sym : string).

Lemma binance_trade_tagged (t : JsVal) (w w' : World) (tr : Trade) :
  binance_trade env sym t w = (Ret tr, w') -> tagged sym "binance" tr.
Proof.
  unfold binance_trade, bind. destruct (object_of t w) as [[t1| |] w1]; try discriminate.
  destruct (or_random env _ w1) as [[key| |] w2]; try discriminate.
  destruct (or_now _ w2) as [[stamp| |] w3]; try discriminate.
  unfold ret. intros H. injection H as <- _. now split.
Qed.

Lemma okx_trade_tagged (t : JsVal) (w w' : World) (tr : Trade) :
  okx_trade env sym t w = (Ret tr, w') -> tagged sym "okx" tr.
Proof.
  unfold okx_trade, bind. destruct (object_of t w) as [[t1| |] w1]; try discriminate.
  destruct (or_random env _ w1) as [[key| |] w2]; try discriminate.
  unfold Date_now, ret. intros H. injection H as <- _. now split.
Qed.

Lemma bybit_trade_tagged (t : JsVal) (w w' : World) (tr : Trade) :
  bybit_trade env sym t w = (Ret tr, w') -> tagged sym "bybit" tr.
Proof.
  unfold bybit_trade, bind. destruct (object_of t w) as [[t1| |] w1]; try discriminate.
  destruct (or_random env _ w1) as [[key| |] w2]; try discriminate.
  destruct (or_now _ w2) as [[stamp| |] w3]; try discriminate.
  unfold ret. intros H. injection H as <- _. now split.
Qed.

Lemma io_binance_window (end_ s : JsNum) :
  inserts_only (tagged sym "binance") (binance_window env sym end_ s).
Proof.
  unfold binance_window.
  apply io_bind; [apply io_toISOString | intros _].
  apply io_bind; [apply io_toISOString | intros _].
  apply io_bind; [apply io_attempts | intros data].
  apply io_bind; [|intros _; apply io_sleep].
  destruct (is_array data && Js.truthy (get data "length")); [|apply io_ret].
  apply io_bind; [apply io_iterate | intros items].
  apply io_insert_all; [apply binance_trade_quiet | apply binance_trade_tagged].
Qed.

Lemma io_binance_windows (end_ : JsNum) (budget : nat) :
  forall s, inserts_only (tagged sym "binance") (binance_windows budget env sym end_ s).
Proof.
  induction budget as [|n IH]; intros s; cbn [binance_windows];
    destruct (Num.lt s end_); try apply io_ret.
  - intros w w' o H. injection H as <- <-. constructor.
  - apply io_bind; [apply io_binance_window | intros _; apply IH].
Qed.

Lemma io_okx_branch : inserts_only (tagged sym "okx") (okx_branch env sym).
Proof.
  unfold okx_branch.
  apply io_bind; [apply io_attempts | intros data].
  destruct (Js.truthy data && Js.truthy (get data "data")); [|apply io_ret].
  apply io_bind; [apply io_iterate | intros items].
  apply io_insert_all; [apply okx_trade_quiet | apply okx_trade_tagged].
Qed.

Lemma io_bybit_branch : inserts_only (tagged sym "bybit") (bybit_branch env sym).
Proof.
  unfold bybit_branch.
  apply io_bind; [apply io_attempts | intros data].
  destruct (Js.truthy data && Js.truthy (get data "result")); [|apply io_ret].
  apply io_bind; [apply io_iterate | intros items].
  apply io_insert_all; [apply bybit_trade_quiet | apply bybit_trade_tagged].
Qed.

Lemma io_dispatch (budget : nat) (exch : string) (start end_ : JsNum) :
  inserts_only (tagged sym exch) (dispatch budget env sym exch start end_).
Proof.
  unfold dispatch.
  destruct (String.eqb_spec exch "binance") as [-> | _]; [apply io_binance_windows|].
  destruct (String.eqb_spec exch "okx") as [-> | _]; [apply io_okx_branch|].
  destruct (String.eqb_spec exch "bybit") as [-> | _]; [apply io_bybit_branch|].
  apply io_ret.
Qed.

End BranchEffects.

Section BackfillAndTable.
Import Backfill Run More.

Lemma backfill_grows (env : Env) (b : Body) (w : World) :
  grows (fun t => present (b_symbol b) = Some (symbol t) /\
                  present (b_exchange b) = Some (exchange t))
        (db w) (db (snd (backfill env b w))).
Proof.
  unfold backfill, backfill_within.
  destruct (present (b_symbol b)) as [sym|] eqn:S; [|constructor].
  destruct (present (b_exchange b)) as [exch|] eqn:X; [|constructor].
  destruct (dispatch _ env sym exch _ _ w) as [o w'] eqn:D.
  pose proof (io_dispatch env sym _ exch _ _ _ D) as G.
  assert (G' : grows (fun t => Some sym = Some (symbol t) /\ Some exch = Some (exchange t))
                     (db w) (db w')).
  { clear D. induction G as [|tbl tbl' tbl'' t G IH [Hs Hx] Hins]; [constructor|].
    eapply grows_one; [exact IH | | exact Hins]. now rewrite Hs, Hx. }
  now destruct o.
Qed.

(** X2.  A backfill only appends.  Whatever the request and whatever
    the network answers, the table afterwards is the table before
    followed by new rows; each new row carries the symbol and the
    exchange of the request, and its id was not stored before.  No
    stored row is removed, changed or moved. *)
Theorem backfill_only_appends (env : Env) (b : Body) (w : World) :
  exists added,
    db (snd (backfill env b w)) = db w ++ added /\
    Forall (fun t => present (b_symbol b) = Some (symbol t) /\
                     present (b_exchange b) = Some (exchange t)) added /\
    forall t, In t added -> ~ In (id t) (map id (db w)).
Proof.
  destruct (grows_appends (backfill_grows env b w)) as (added & E & HP & Hnew & _).
  exists added. repeat split; assumption.
Qed.

(** X3.  Ids stay unique.  If no two stored rows share an id before a
    backfill, none do after it, whichever way the call ends. *)
Theorem backfill_keeps_ids_unique (env : Env) (b : Body) (w : World)
    (Hunique : NoDup (map id (db w))) :
  NoDup (map id (db (snd (backfill env b w)))).
Proof.
  destruct (grows_appends (backfill_grows env b w)) as (added & _ & _ & _ & ND).
  exact (ND Hunique).
Qed.

End BackfillAndTable.

Lemma backfill_keeps_ids_unique_witness :
  let env := Scenario.failing_at (2 * Scenario.hour) in
  let b := Backfill.mkBody (Some "BTCUSDT"%string) (Some "binance"%string)
             (JNum (of_Z Scenario.hour)) (JNum (of_Z (3 * Scenario.hour))) in
  let w := Backfill.mkWorld
             [mkTrade "BTCUSDT-binance-3600000" "binance" "BTCUSDT" (Fin 1) (Fin 1) buy (of_Z 5)]
             20000000 0 0 [] in
  NoDup (map id (Backfill.db w)) /\
  NoDup (map id (Backfill.db (snd (Backfill.backfill env b w)))).
Proof.
  intros env b w.
  assert (U : NoDup (map id (Backfill.db w))) by (repeat constructor; intros []).
  split; [exact U | exact (backfill_keeps_ids_unique env b w U)].
Defined.

(* ------------------------------------------------------------------ *)
(** ** The handler as a whole *)

Section Answers.
Import Backfill Run.
Local Open Scope string_scope.

Variables (env : Env) (sym : string) (end_ : JsNum).

(** A run of the loop that did not exhaust its budget is unchanged by a
    larger budget. *)
Lemma windows_budget_irrelevant (n : nat) :
  forall (s : JsNum) (w : World) (m : nat),
    fst (binance_windows n env sym end_ s w) <> Timeout ->
    (n <= m)%nat ->
    binance_windows m env sym end_ s w = binance_windows n env sym end_ s w.
Proof.
  induction n as [|n IH]; intros s w m Hfin Hle.
  - cbn [binance_windows] in *. destruct m; cbn [binance_windows];
      destruct (Num.lt s end_); try reflexivity; now destruct Hfin.
  - destruct m as [|m]; [lia|]. cbn [binance_windows] in *.
    destruct (Num.lt s end_); [|reflexivity].
    unfold bind in *. destruct (binance_window env sym end_ s w) as [[u|e|] w1];
      try reflexivity.
    apply IH; [assumption | lia].
Qed.

End Answers.

Section AnswersTheorem.
Import Backfill Run.
Local Open Scope string_scope.

(** X4.  Every backfill request is answered.  The window loop cannot
    run forever, even over a range without end: a window is entered only
    at a representable date, so the handler answers 200, 400 or 500, and
    the answer and the final state are those of every run with a larger
    window budget. *)
Theorem backfill_always_answers (env : Env) (b : Body) (w : World) :
  (fst (backfill env b w) = Ok200 \/
   fst (backfill env b w) = Error400 \/
   exists e, fst (backfill env b w) = Error500 e) /\
  forall budget,
    (window_budget (range_start (clock w) b) (range_end (clock w) b) <= budget)%nat ->
    backfill_within budget env b w = backfill env b w.
Proof.
  split.
  - pose proof (backfill_responds env b w) as R.
    destruct (fst (backfill env b w)) as [| |e|]; auto.
    + right. right. now exists e.
    + now destruct R.
  - intros budget Hle. unfold backfill, backfill_within.
    destruct (present (b_symbol b)) as [s|]; [|reflexivity].
    destruct (present (b_exchange b)) as [x|]; [|reflexivity].
    unfold dispatch. destruct (String.eqb x "binance"); [|reflexivity].
    rewrite (windows_budget_irrelevant env s (range_end (clock w) b)
               (n := window_budget (range_start (clock w) b) (range_end (clock w) b))
               (range_start (clock w) b) w (m := budget)); [reflexivity| |assumption].
    apply windows_terminate, budget_is_enough.
Qed.

(** X5.  For OKX and Bybit the requested time range changes nothing:
    two requests for the same symbol that differ only in [startTs] and
    [endTs] give the same answer and leave the same state. *)
Theorem recent_only_ignores_range (env : Env) (sym : option string) (exch : string)
    (from to from' to' : JsVal) (w : World)
    (Hrecent : exch = "okx" \/ exch = "bybit") :
  backfill env (mkBody sym (Some exch) from to) w
  = backfill env (mkBody sym (Some exch) from' to') w.
Proof.
  unfold backfill, backfill_within. cbn [b_symbol b_exchange].
  destruct (present sym) as [s|]; [|reflexivity].
  destruct Hrecent as [-> | ->]; reflexivity.
Qed.

End AnswersTheorem.

Lemma recent_only_ignores_range_witness :
  Backfill.backfill Scenario.unreachable
    (Backfill.mkBody (Some "BTCUSDT"%string) (Some "okx"%string) (JNum (of_Z 5)) JUndef)
    (Scenario.idle 0)
  = Backfill.backfill Scenario.unreachable
      (Backfill.mkBody (Some "BTCUSDT"%string) (Some "okx"%string) JUndef (JStr "x"%string))
      (Scenario.idle 0).
Proof.
  apply (recent_only_ignores_range Scenario.unreachable (Some "BTCUSDT"%string)
           (exch := "okx"%string)).
  left. reflexivity.
Defined.

(* ------------------------------------------------------------------ *)
(** ** What a retried fetch costs *)

Section RetryCost.
Import Backfill Run More.

Variables (env : Env) (r : Request).

Lemma attempts_first_success (j : nat) :
  forall (waits : list Z) (w : World) (data : JsVal),
    (j <= List.length waits)%nat ->
    (forall i, (i < j)%nat -> respond env (calls w + i) r = None) ->
    respond env (calls w + j) r = Some data ->
    exists w',
      attempts (axios_get env r) waits w = (Ret data, w') /\
      db w' = db w /\ draws w' = draws w /\
      calls w' = (calls w + S j)%nat /\
      clock w' = (clock w + total (firstn j waits))%Z.
Proof.
  induction j as [|j IH]; intros waits w data Hj Hfail Hok.
  - rewrite Nat.add_0_r in Hok. rewrite (attempts_answered env r waits w Hok).
    eexists. split; [reflexivity|]. cbn. repeat split; lia.
  - destruct waits as [|d waits]; [cbn in Hj; lia|].
    assert (F0 : respond env (calls w) r = None).
    { rewrite <- (Nat.add_0_r (calls w)). apply Hfail. lia. }
    rewrite (attempts_again env r d waits w F0).
    set (w1 := mkWorld (db w) (clock w + d) (S (calls w)) (draws w)
                       ((log w ++ [Fetched r false]) ++ [Slept d])).
    destruct (IH waits w1 data) as (w' & E & Hdb & Hdr & Hc & Hk).
    + cbn in Hj. lia.
    + intros i Hi. cbn [calls w1]. replace (S (calls w) + i)%nat with (calls w + S i)%nat by lia.
      apply Hfail. lia.
    + cbn [calls w1]. now replace (S (calls w) + j)%nat with (calls w + S j)%nat by lia.
    + exists w'. split; [exact E|]. cbn [db draws calls clock w1] in *.
      repeat split; try assumption; try lia.
      rewrite Hk. cbn [firstn total fold_right]. unfold total. lia.
Qed.

Lemma attempts_all_fail (waits : list Z) :
  forall (w : World),
    (forall i, (i <= List.length waits)%nat -> respond env (calls w + i) r = None) ->
    exists w',
      attempts (axios_get env r) waits w = (Throw (FetchFailed r), w') /\
      db w' = db w /\ draws w' = draws w /\
      calls w' = (calls w + S (List.length waits))%nat /\
      clock w' = (clock w + total waits)%Z.
Proof.
  induction waits as [|d waits IH]; intros w Hfail.
  - assert (F0 : respond env (calls w) r = None).
    { rewrite <- (Nat.add_0_r (calls w)). apply Hfail. cbn. lia. }
    rewrite (attempts_exhausted env r w F0). eexists. split; [reflexivity|].
    cbn. repeat split; lia.
  - assert (F0 : respond env (calls w) r = None).
    { rewrite <- (Nat.add_0_r (calls w)). apply Hfail. cbn. lia. }
    rewrite (attempts_again env r d waits w F0).
    set (w1 := mkWorld (db w) (clock w + d) (S (calls w)) (draws w)
                       ((log w ++ [Fetched r false]) ++ [Slept d])).
    destruct (IH w1) as (w' & E & Hdb & Hdr & Hc & Hk).
    + intros i Hi. cbn [calls w1]. replace (S (calls w) + i)%nat with (calls w + S i)%nat by lia.
      apply Hfail. cbn. lia.
    + exists w'. split; [exact E|]. cbn [db draws calls clock w1] in *.
      repeat split; try assumption.
      * cbn [List.length]. lia.
      * rewrite Hk. cbn [total fold_right]. unfold total. lia.
Qed.

End RetryCost.

Section RetrySchedule.
Import Backfill Run More.

Lemma retry_timeouts_succ (n : nat) (m : Z) :
  retry_timeouts (S n) m = retry_timeouts n m ++ [(m * 2 ^ Z.of_nat n)%Z].
Proof. unfold retry_timeouts. now rewrite seq_S, map_app. Qed.

Lemma total_app (a b : list Z) : total (a ++ b) = (total a + total b)%Z.
Proof.
  unfold total. induction a as [|x a IH]; cbn [app fold_right]; [lia|].
  rewrite IH. lia.
Qed.

Lemma retry_timeouts_total (n : nat) (m : Z) :
  total (retry_timeouts n m) = (m * (2 ^ Z.of_nat n - 1))%Z.
Proof.
  induction n as [|n IH]; [cbn; lia|].
  rewrite retry_timeouts_succ, total_app, IH. cbn [total fold_right].
  rewrite Nat2Z.inj_succ, Z.pow_succ_r by lia. lia.
Qed.

Lemma retry_timeouts_firstn (j n : nat) (m : Z) :
  (j <= n)%nat -> firstn j (retry_timeouts n m) = retry_timeouts j m.
Proof.
  intros H. unfold retry_timeouts. rewrite firstn_map. f_equal.
  replace n with (j + (n - j))%nat by lia.
  rewrite seq_app, firstn_app, length_seq, Nat.sub_diag, firstn_0, app_nil_r.
  apply firstn_all2. rewrite length_seq. lia.
Qed.

Lemma retry_timeouts_length (n : nat) (m : Z) :
  List.length (retry_timeouts n m) = n.
Proof. unfold retry_timeouts. now rewrite length_map, length_seq. Qed.

(** X6.  What a retried fetch returns and costs.  If the first [j]
    requests fail and the next one is answered, with [j] at most the
    number of retries, [pRetry] returns that answer after [j + 1]
    requests and [minTimeout * (2^j - 1)] milliseconds of waiting; it
    does not look at later answers.  If the first [retries + 1] requests
    all fail, it throws after [minTimeout * (2^retries - 1)]
    milliseconds.  The table is not touched either way. *)
Theorem pRetry_outcome (env : Env) (r : Request) (retries : nat) (minTimeout : Z)
    (w : World) :
  (forall j data,
     (j <= retries)%nat ->
     (forall i, (i < j)%nat -> respond env (calls w + i) r = None) ->
     respond env (calls w + j) r = Some data ->
     exists w',
       pRetry (axios_get env r) retries minTimeout w = (Ret data, w') /\
       db w' = db w /\
       calls w' = (calls w + S j)%nat /\
       clock w' = (clock w + minTimeout * (2 ^ Z.of_nat j - 1))%Z) /\
  ((forall i, (i <= retries)%nat -> respond env (calls w + i) r = None) ->
   exists w',
     pRetry (axios_get env r) retries minTimeout w = (Throw (FetchFailed r), w') /\
     db w' = db w /\
     calls w' = (calls w + S retries)%nat /\
     clock w' = (clock w + minTimeout * (2 ^ Z.of_nat retries - 1))%Z).
Proof.
  unfold pRetry. split.
  - intros j data Hj Hfail Hok.
    destruct (attempts_first_success env r (retry_timeouts retries minTimeout) w
                (j := j) (data := data)) as (w' & E & Hdb & _ & Hc & Hk);
      try assumption; [now rewrite retry_timeouts_length|].
    exists w'. repeat split; try assumption.
    now rewrite Hk, retry_timeouts_firstn, retry_timeouts_total.
  - intros Hfail.
    destruct (attempts_all_fail env r (retry_timeouts retries minTimeout) w)
      as (w' & E & Hdb & _ & Hc & Hk).
    + intros i Hi. apply Hfail. now rewrite retry_timeouts_length in Hi.
    + exists w'. rewrite retry_timeouts_length in Hc.
      repeat split; try assumption. now rewrite Hk, retry_timeouts_total.
Qed.

End RetrySchedule.

Lemma pRetry_outcome_witness :
  let data := JArr [] in
  let env := More.flaky 2 data in
  let r := Backfill.OKXTrades "BTC-USDT-SWAP" 100 in
  let w := Scenario.idle 0 in
  (forall i, (i < 2)%nat -> Backfill.respond env (Backfill.calls w + i) r = None) /\
  Backfill.respond env (Backfill.calls w + 2) r = Some data /\
  exists w',
    Backfill.pRetry (Backfill.axios_get env r) 2 1000 w = (Backfill.Ret data, w') /\
    Backfill.db w' = Backfill.db w /\
    Backfill.calls w' = 3%nat /\
    Backfill.clock w' = 3000%Z.
Proof.
  intros data env r w.
  assert (F : forall i, (i < 2)%nat -> Backfill.respond env (Backfill.calls w + i) r = None).
  { intros i Hi. destruct i as [|[|i]]; [reflexivity | reflexivity | lia]. }
  split; [exact F|]. split; [reflexivity|].
  exact (proj1 (pRetry_outcome env r 2 1000 w) 2%nat data (le_n 2) F eq_refl).
Defined.

(* ------------------------------------------------------------------ *)
(** ** Storing a batch of payloads *)

Section Batches.
Import Backfill Run More.
Local Open Scope string_scope.

Lemma insert_all_app (normalize : JsVal -> M Trade) (a b : list JsVal) (w : World) :
  insert_all normalize (a ++ b) w
  = match insert_all normalize a w with
    | (Ret _, w1) => insert_all normalize b w1
    | (Throw e, w1) => (Throw e, w1)
    | (Timeout, w1) => (Timeout, w1)
    end.
Proof.
  revert w. induction a as [|t a IH]; intros w; cbn [app insert_all].
  - reflexivity.
  - unfold bind. destruct (normalize t w) as [[tr|e|] w1]; try reflexivity.
    destruct (insert tr w1) as [[u|e|] w2]; try reflexivity.
    apply IH.
Qed.

Lemma null_stops (normalize : JsVal -> M Trade) (v : JsVal) (rest : list JsVal) (w : World) :
  normalize v w = (Throw null_error, w) ->
  insert_all normalize (v :: rest) w = (Throw null_error, w).
Proof. intros H. cbn [insert_all]. unfold bind. now rewrite H. Qed.

Variables (env : Env) (sym : string).

(** X8.  A [null] entry in a batch.  The entries before it are stored
    as usual; at the [null] entry the loop throws a [TypeError], in the
    state those entries left, and the entries after it are never
    looked at.  This holds for the three connectors. *)
Theorem null_entry_aborts_batch (good rest : list JsVal) (v : JsVal) (w : World)
    (Hnull : nullish v = true) :
  let aborted (normalize : JsVal -> M Trade) :=
    insert_all normalize (good ++ v :: rest) w
    = match insert_all normalize good w with
      | (Ret _, w1) => (Throw null_error, w1)
      | other => other
      end in
  aborted (binance_trade env sym) /\
  aborted (okx_trade env sym) /\
  aborted (bybit_trade env sym).
Proof.
  cbn zeta. repeat split; rewrite insert_all_app;
    destruct (insert_all _ good w) as [[u|e|] w1]; try reflexivity;
    apply null_stops.
  - unfold binance_trade, bind, object_of. now rewrite Hnull.
  - unfold okx_trade, bind, object_of. now rewrite Hnull.
  - unfold bybit_trade, bind, object_of. now rewrite Hnull.
Qed.

End Batches.

Lemma null_entry_aborts_batch_witness :
  let good := [Scenario.agg_trade 7 "100.2" "1" true 7200001] in
  let w := Scenario.idle 0 in
  nullish JNull = true /\
  Backfill.insert_all (Backfill.binance_trade Scenario.unreachable "BTCUSDT")
    (good ++ JNull :: [Scenario.agg_trade 8 "100.2" "1" true 7200001]) w
  = (Backfill.Throw More.null_error,
     snd (Backfill.insert_all (Backfill.binance_trade Scenario.unreachable "BTCUSDT") good w)).
Proof.
  intros good w. split; [reflexivity|].
  rewrite (proj1 (null_entry_aborts_batch Scenario.unreachable "BTCUSDT" good
                    [Scenario.agg_trade 8 "100.2" "1" true 7200001] JNull w eq_refl)).
  reflexivity.
Defined.

Section Reingest.
Import Backfill Run More.
Local Open Scope string_scope.

Variables (normalize : JsVal -> M Trade) (name : JsVal -> string).







End Reingest.

Section ReingestConnectors.
Import Backfill Run More.
Local Open Scope string_scope.

Variables (env : Env) (sym : string).





End ReingestConnectors.


(* ------------------------------------------------------------------ *)
(** ** Answers that do not have the expected shape *)

Section UnexpectedBodies.
Import Backfill Run More.
Local Open Scope string_scope.

Variable env : Env.

(** X7.  An answer without trades is accepted in silence.  When the
    first request of an OKX or Bybit backfill is answered by a body that
    is falsy or has no truthy [data] (OKX) or [result] (Bybit) field,
    for instance an error object or an empty string, the call stores
    nothing, sends no other request and answers 200.  In the Binance
    loop, a window answered by anything but a non-empty array stores
    nothing and the loop moves on after its 300 ms pause. *)
Theorem body_without_trades_is_accepted (b : Body) (sym : string) (w : World)
    (data : JsVal) (Hsym : present (b_symbol b) = Some sym) :
  (present (b_exchange b) = Some "okx" ->
   respond env (calls w) (OKXTrades (okx_instId sym) 100) = Some data ->
   Js.truthy data && Js.truthy (get data "data") = false ->
   exists w',
     backfill env b w = (Ok200, w') /\ db w' = db w /\ calls w' = S (calls w)) /\
  (present (b_exchange b) = Some "bybit" ->
   respond env (calls w) (BybitTrades sym 200) = Some data ->
   Js.truthy data && Js.truthy (get data "result") = false ->
   exists w',
     backfill env b w = (Ok200, w') /\ db w' = db w /\ calls w' = S (calls w)) /\
  (forall end_ s,
     toISOString s w = (Ret tt, w) ->
     toISOString (window_end end_ s) w = (Ret tt, w) ->
     respond env (calls w) (window_request sym end_ s) = Some data ->
     is_array data && Js.truthy (get data "length") = false ->
     exists w',
       binance_window env sym end_ s w = (Ret tt, w') /\
       db w' = db w /\ calls w' = S (calls w) /\ clock w' = (clock w + 300)%Z).
Proof.
  split; [|split].
  - intros Hx Hr Hd. unfold backfill, backfill_within. rewrite Hsym, Hx.
    unfold dispatch. cbn [String.eqb Ascii.eqb Bool.eqb].
    unfold okx_branch, bind, okx_fetch, pRetry_default, pRetry, fetchOKXTrades.
    rewrite (attempts_answered env _ _ w Hr), Hd.
    eexists. split; [reflexivity|]. split; reflexivity.
  - intros Hx Hr Hd. unfold backfill, backfill_within. rewrite Hsym, Hx.
    unfold dispatch. cbn [String.eqb Ascii.eqb Bool.eqb].
    unfold bybit_branch, bind, bybit_fetch, pRetry_default, pRetry, fetchBybitTrades.
    rewrite (attempts_answered env _ _ w Hr), Hd.
    eexists. split; [reflexivity|]. split; reflexivity.
  - intros end_ s Hs He Hr Hd. unfold binance_window, bind. rewrite Hs, He.
    unfold binance_fetch, pRetry, fetchBinanceAggTrades.
    unfold window_request in Hr.
    rewrite (attempts_answered env _ _ w Hr), Hd.
    eexists. split; [reflexivity|]. repeat split.
Qed.

End UnexpectedBodies.

Lemma body_without_trades_is_accepted_witness :
  let data := JObj [("code"%string, JStr "51001"); ("msg"%string, JStr "Instrument ID does not exist")] in
  let env := More.flaky 0 data in
  let b := Backfill.mkBody (Some "BTCUSDT"%string) (Some "okx"%string) JUndef JUndef in
  let w := Scenario.idle 0 in
  Backfill.present (Backfill.b_symbol b) = Some "BTCUSDT"%string /\
  Backfill.present (Backfill.b_exchange b) = Some "okx"%string /\
  Backfill.respond env (Backfill.calls w)
    (Backfill.OKXTrades (Backfill.okx_instId "BTCUSDT") 100) = Some data /\
  Js.truthy data && Js.truthy (get data "data") = false /\
  exists w',
    Backfill.backfill env b w = (Backfill.Ok200, w') /\
    Backfill.db w' = Backfill.db w /\ Backfill.calls w' = 1%nat.
Proof.
  intros data env b w.
  split; [reflexivity|]. split; [reflexivity|]. split; [reflexivity|].
  split; [reflexivity|].
  exact (proj1 (@body_without_trades_is_accepted env b "BTCUSDT"%string w data eq_refl)
           eq_refl eq_refl eq_refl).
Defined.

(* ------------------------------------------------------------------ *)
(** ** The windows a Binance backfill asks for *)

Section LogEffect.
Import Backfill Run More.

Variable Q : Event -> Prop.










End LogEffect.

Section WindowRequests.
Import Backfill Run More.

Variables (env : Env) (sym : string) (end_ : JsNum).



End WindowRequests.

Section WindowGeometry.
Import Backfill Run More.
Local Open Scope string_scope.




End WindowGeometry.


(* ------------------------------------------------------------------ *)
(** ** The OKX instrument name *)

Section InstrumentName.
Import Backfill Run More.

Lemma chars_append (a b : string) :
  Text.chars (a ++ b)%string = Text.chars a ++ Text.chars b.
Proof. induction a as [|c a IH]; cbn; [reflexivity | now rewrite IH]. Qed.

Lemma of_chars_app (a b : list ascii) :
  Text.of_chars (a ++ b) = (Text.of_chars a ++ Text.of_chars b)%string.
Proof. induction a as [|c a IH]; cbn; [reflexivity | now rewrite IH]. Qed.

Lemma eqb_nocase_length (a b : list ascii) :
  Text.eqb_nocase a b = true -> List.length a = List.length b.
Proof.
  unfold Text.eqb_nocase. intros H. apply andb_true_iff in H.
  now apply Nat.eqb_eq.
Qed.

Lemma skipn_exact {A : Type} (a b : list A) (n : nat) :
  n = List.length a -> skipn n (a ++ b) = b.
Proof.
  intros ->. rewrite skipn_app, skipn_all, Nat.sub_diag. reflexivity.
Qed.

Lemma firstn_exact {A : Type} (a b : list A) (n : nat) :
  n = List.length a -> firstn n (a ++ b) = a.
Proof.
  intros ->. rewrite firstn_app, firstn_all, Nat.sub_diag, firstn_0.
  apply app_nil_r.
Qed.

Lemma okx_instId_suffix (base suffix : string) :
  Text.eqb_nocase (Text.chars suffix) (Text.chars "USDT") = true ->
  okx_instId (base ++ suffix)%string = (base ++ "-USDT-SWAP")%string.
Proof.
  intros H. pose proof (eqb_nocase_length _ _ H) as L. cbn in L.
  unfold okx_instId. rewrite chars_append, length_app, L.
  replace (List.length (Text.chars base) + 4 - 4)%nat
    with (List.length (Text.chars base)) by lia.
  rewrite (skipn_exact _ _ eq_refl), (firstn_exact _ _ eq_refl), H, of_chars_chars.
  replace (4 <=? List.length (Text.chars base) + 4)%nat with true
    by (symmetry; apply Nat.leb_le; lia).
  reflexivity.
Qed.

Lemma okx_instId_cases (sym : string) :
  okx_instId sym = sym \/
  exists base suffix,
    sym = (base ++ suffix)%string /\
    Text.eqb_nocase (Text.chars suffix) (Text.chars "USDT") = true /\
    okx_instId sym = (base ++ "-USDT-SWAP")%string.
Proof.
  unfold okx_instId.
  destruct ((4 <=? List.length (Text.chars sym))%nat
            && Text.eqb_nocase (skipn (List.length (Text.chars sym) - 4) (Text.chars sym))
                               (Text.chars "USDT")) eqn:C; [|now left].
  right. apply andb_true_iff in C. destruct C as [_ C].
  exists (Text.of_chars (firstn (List.length (Text.chars sym) - 4) (Text.chars sym))),
         (Text.of_chars (skipn (List.length (Text.chars sym) - 4) (Text.chars sym))).
  split; [now rewrite <- of_chars_app, firstn_skipn, of_chars_chars|].
  split; [now rewrite chars_of_chars | reflexivity].
Qed.

Lemma okx_instId_swap (base : string) :
  okx_instId (base ++ "-USDT-SWAP")%string = (base ++ "-USDT-SWAP")%string.
Proof.
  unfold okx_instId. rewrite chars_append, length_app.
  change (List.length (Text.chars "-USDT-SWAP")) with 10%nat.
  replace (List.length (Text.chars base) + 10 - 4)%nat
    with (List.length (Text.chars base) + 6)%nat by lia.
  rewrite skipn_app, skipn_all2 by lia.
  replace (List.length (Text.chars base) + 6 - List.length (Text.chars base))%nat
    with 6%nat by lia.
  cbn [app]. change (Text.eqb_nocase _ _) with false.
  now rewrite andb_false_r.
Qed.

(** X11.  The OKX instrument name.  A symbol that ends in [USDT], in
    any mix of upper and lower case, has that ending replaced by
    [-USDT-SWAP] and keeps everything before it; any other symbol is
    passed on unchanged; and mapping an instrument name again does not
    change it. *)
Theorem okx_instId_rewrites_the_ending :
  (forall base suffix : string,
     Text.eqb_nocase (Text.chars suffix) (Text.chars "USDT") = true ->
     okx_instId (base ++ suffix)%string = (base ++ "-USDT-SWAP")%string) /\
  (forall sym : string,
     (forall base suffix : string,
        sym = (base ++ suffix)%string ->
        Text.eqb_nocase (Text.chars suffix) (Text.chars "USDT") = false) ->
     okx_instId sym = sym) /\
  (forall sym : string, okx_instId (okx_instId sym) = okx_instId sym).
Proof.
  split; [exact okx_instId_suffix|]. split.
  - intros sym H. destruct (okx_instId_cases sym) as [E | (base & suffix & -> & M & _)];
      [exact E|].
    rewrite (H base suffix eq_refl) in M. discriminate.
  - intros sym. destruct (okx_instId_cases sym) as [E | (base & suffix & _ & _ & E)].
    + now rewrite !E.
    + rewrite E. apply okx_instId_swap.
Qed.

End InstrumentName.

Lemma okx_instId_rewrites_the_ending_witness :
  Text.eqb_nocase (Text.chars "usdT") (Text.chars "USDT") = true /\
  Backfill.okx_instId ("ETH" ++ "usdT")%string = ("ETH" ++ "-USDT-SWAP")%string.
Proof.
  split; [reflexivity|].
  apply (proj1 okx_instId_rewrites_the_ending "ETH"%string "usdT"%string).
  reflexivity.
Defined.

(* ------------------------------------------------------------------ *)
(** ** The aggregator: what the clusters add up to *)

Section ClusterFacts.
Import Aggregator Terms Totals.

Lemma map_set_entries (k : Key) (v : Bucket) (m : BucketMap) (e : Key * Bucket) :
  In e (map_set k v m) ->
  In e m \/
  (snd e = v /\
   ((fst e = k /\ map_get k m = None) \/
    exists v0, In (fst e, v0) m /\ map_get k m = Some v0)).
Proof.
  induction m as [|[k' v'] m IH]; cbn [map_set map_get].
  - intros [<- | []]. right. split; [reflexivity|]. left. now split.
  - destruct (key_eqb k' k) eqn:E; cbn [In].
    + intros [<- | H].
      * right. split; [reflexivity|]. right. exists v'. split; [now left | reflexivity].
      * left. now right.
    + intros [<- | H]; [left; now left|].
      destruct (IH H) as [Hin | [Hs [[Hf Hn] | (v0 & Hin & Hg)]]].
      * left. now right.
      * right. split; [assumption|]. left. now split.
      * right. split; [assumption|]. right. exists v0. split; [now right | assumption].
Qed.


Lemma distinct_nodup (m : BucketMap) : distinct_keys m -> NoDup (map fst m).
Proof.
  induction m as [|[k v] m IH]; cbn [distinct_keys map fst].
  - intros _. constructor.
  - intros [Hall Hd]. constructor; [|now apply IH].
    intros Hin. apply in_map_iff in Hin. destruct Hin as (e & He & Hin).
    pose proof (proj1 (Forall_forall _ _) Hall e Hin) as Hne.
    cbn beta in Hne. rewrite He in Hne. rewrite key_eqb_refl in Hne. discriminate.
Qed.

Variable bucketSize : JsNum.

(** Every bucket is kept under the key of its own price. *)
Lemma fill_levels (rows : list Trade) (k : Key) (b : Bucket) :
  In (k, b) (fill bucketSize rows) -> level b = k.
Proof.
  revert k b. induction rows as [|r rows IH] using rev_ind; intros k b.
  - intros [].
  - rewrite fill_snoc. unfold accumulate. intros H.
    apply map_set_entries in H.
    destruct H as [H | [Hs [[Hf Hn] | (v0 & Hin & Hg)]]]; cbn [fst snd] in *.
    + now apply IH.
    + subst b. rewrite Hn. unfold level. cbn [price]. now symmetry.
    + subst b. rewrite Hg. unfold level. cbn [price]. exact (IH _ _ Hin).
Qed.

Lemma fill_level_keys (rows : list Trade) :
  map level (map_values (fill bucketSize rows)) = map fst (fill bucketSize rows).
Proof.
  unfold map_values. rewrite map_map. apply map_ext_in.
  intros [k b] H. cbn [fst snd]. exact (fill_levels rows k b H).
Qed.

Lemma firstn_nodup {A : Type} (n : nat) (l : list A) : NoDup l -> NoDup (firstn n l).
Proof.
  intros H. rewrite <- (firstn_skipn n l) in H. now apply NoDup_app_remove_r in H.
Qed.

Lemma clusters_levels_distinct (rows : list Trade) (limit : JsNum) :
  NoDup (map level (clusters_of rows bucketSize limit)).
Proof.
  unfold clusters_of. destruct rows as [|r0 rows]; [constructor|].
  unfold slice0. rewrite <- firstn_map. apply firstn_nodup.
  apply (Permutation_NoDup
           (Permutation_map level (sort_perm by_volume _))).
  rewrite fill_level_keys. apply distinct_nodup, fill_distinct.
Qed.


End ClusterFacts.

(* ------------------------------------------------------------------ *)
(** ** The aggregator: timestamps *)

Section LatestTimestamp.
Import Aggregator Terms Totals.







End LatestTimestamp.


(* ------------------------------------------------------------------ *)
(** ** The aggregator: levels, totals and the limit *)

Section ClusterTotals.
Import Aggregator Terms Totals.

Variable bucketSize : JsNum.

Lemma fill_keys_from_rows (rows : list Trade) :
  incl (map fst (fill bucketSize rows)) (map (key_of bucketSize) rows).
Proof.
  intros k Hk. apply in_map_iff in Hk. destruct Hk as ([k' b] & <- & Hin).
  cbn [fst]. pose proof (fill_levels _ _ _ _ Hin) as L.
  pose proof (distinct_lookup _ _ _ (fill_distinct bucketSize rows) Hin) as G.
  rewrite fill_lookup in G. unfold bucket_of in G.
  destruct (rows_with bucketSize k' rows) as [|r0 same] eqn:S; [discriminate|].
  injection G as <-. unfold level in L. cbn [price] in L.
  assert (H0 : In r0 (rows_with bucketSize k' rows)) by (rewrite S; now left).
  unfold rows_with in H0. apply filter_In in H0.
  apply in_map_iff. exists r0. split; [exact L | exact (proj1 H0)].
Qed.

Lemma clusters_slice (rows : list Trade) (limit : JsNum) :
  clusters_of rows bucketSize limit = slice0 limit (clusters_of rows bucketSize PInf).
Proof.
  unfold clusters_of. destruct rows as [|r rows].
  - unfold slice0. now rewrite firstn_nil.
  - f_equal. unfold slice0, slice_end. rewrite Nat2Z.id. now rewrite firstn_all.
Qed.

Lemma clusters_all (rows : list Trade) :
  Permutation (map_values (fill bucketSize rows)) (clusters_of rows bucketSize PInf).
Proof.
  unfold clusters_of. destruct rows as [|r rows]; [constructor|].
  unfold slice0, slice_end. rewrite Nat2Z.id, firstn_all. apply sort_perm.
Qed.

(** X13.  No price level is reported twice: the returned clusters have
    pairwise different keys, and there are at most as many of them as
    rows were read. *)
Theorem clusters_have_distinct_levels (now : Z) (tbl : Table) (sym exch : string)
    (periodMs limit : JsNum) :
  NoDup (map level (computeClusters now tbl sym exch periodMs bucketSize limit)) /\
  (List.length (computeClusters now tbl sym exch periodMs bucketSize limit)
   <= List.length (rows_read now tbl sym exch periodMs))%nat.
Proof.
  unfold computeClusters. fold (rows_read now tbl sym exch periodMs).
  set (rows := rows_read now tbl sym exch periodMs).
  split; [apply clusters_levels_distinct|].
  rewrite clusters_slice. unfold slice0. rewrite length_firstn.
  apply Nat.le_trans with (List.length (clusters_of rows bucketSize PInf));
    [apply Nat.le_min_r|].
  rewrite <- (Permutation_length (clusters_all rows)).
  unfold map_values. rewrite length_map, <- (length_map fst),
    <- (length_map (key_of bucketSize) rows).
  apply NoDup_incl_length; [|apply fill_keys_from_rows].
  apply distinct_nodup, fill_distinct.
Qed.

(* -- totals -- *)





Lemma trunc_integer (k : Z) : Num.trunc (inject_Z k) = k.
Proof.
  unfold Num.trunc. destruct (Qle_bool 0 (inject_Z k));
    [apply Qfloor_Z | apply Qceiling_Z].
Qed.

Lemma slice0_all {A : Type} (limit : JsNum) (l : list A) :
  Num.le (of_Z (Z.of_nat (List.length l))) limit = true -> slice0 limit l = l.
Proof.
  destruct limit as [| | |q]; try discriminate.
  - intros _. unfold slice0, slice_end. rewrite Nat2Z.id. apply firstn_all.
  - unfold of_Z. rewrite le_fin. intros H. apply Qle_bool_iff in H.
    assert (H0 : 0 <= q).
    { apply Qle_trans with (inject_Z (Z.of_nat (List.length l))); [|exact H].
      change 0 with (inject_Z 0). rewrite <- Zle_Qle. lia. }
    pose proof (Qfloor_resp_le _ _ H) as K. rewrite Qfloor_Z in K.
    unfold slice0, slice_end, Num.trunc.
    apply Qle_bool_iff in H0. rewrite H0.
    destruct (Qfloor q <? 0)%Z eqn:E; [apply Z.ltb_lt in E; lia|].
    rewrite Z.min_r by lia. rewrite Nat2Z.id. apply firstn_all.
Qed.


(** X15.  What the limit does.  The result is always a leading part of
    the full ranking (the one an infinite limit gives).  For an integer
    limit [k] that is not negative it has [min k n] clusters, [n] being
    the number of price levels; a negative [k] drops the last [-k]
    clusters of the ranking instead; and a limit of at least [n] gives
    the full ranking. *)
Theorem limit_cuts_the_ranking (now : Z) (tbl : Table) (sym exch : string)
    (periodMs : JsNum) :
  let ranking := computeClusters now tbl sym exch periodMs bucketSize PInf in
  let n := Z.of_nat (List.length ranking) in
  (forall limit, exists rest,
     ranking = computeClusters now tbl sym exch periodMs bucketSize limit ++ rest) /\
  (forall k : Z,
     Z.of_nat (List.length
       (computeClusters now tbl sym exch periodMs bucketSize (of_Z k)))
     = if (k <? 0)%Z then Z.max (n + k) 0 else Z.min k n) /\
  (forall limit, Num.le (of_Z n) limit = true ->
     computeClusters now tbl sym exch periodMs bucketSize limit = ranking).
Proof.
  unfold computeClusters. fold (rows_read now tbl sym exch periodMs).
  set (rows := rows_read now tbl sym exch periodMs).
  set (ranking := clusters_of rows bucketSize PInf). cbv zeta.
  split; [|split].
  - intros limit. rewrite clusters_slice. fold ranking. unfold slice0.
    eexists. symmetry. apply firstn_skipn.
  - intros k. rewrite clusters_slice. fold ranking.
    unfold slice0, slice_end, of_Z. rewrite trunc_integer, length_firstn.
    destruct (k <? 0)%Z eqn:E; [apply Z.ltb_lt in E | apply Z.ltb_ge in E]; lia.
  - intros limit H. rewrite clusters_slice. fold ranking. now apply slice0_all.
Qed.

(* -- ties -- *)




End ClusterTotals.


Lemma limit_cuts_the_ranking_witness :
  let tbl := [mkTrade "a" "binance" "BTCUSDT" (Fin 100) (Fin 5) buy (of_Z 900);
              mkTrade "b" "binance" "BTCUSDT" (Fin 200) (Fin 20) sell (of_Z 950);
              mkTrade "c" "binance" "BTCUSDT" (Fin 300) (Fin 1) buy (of_Z 990)]%string in
  Num.le (of_Z 3) (of_Z 7) = true /\
  Aggregator.computeClusters 1000 tbl "BTCUSDT" "binance" (of_Z 500) (Fin 1) (of_Z 7)
  = Aggregator.computeClusters 1000 tbl "BTCUSDT" "binance" (of_Z 500) (Fin 1) PInf.
Proof.
  intros tbl. split; [reflexivity|].
  apply (proj2 (proj2 (limit_cuts_the_ranking (Fin 1) 1000 tbl "BTCUSDT" "binance"
                         (of_Z 500)))).
  vm_compute. reflexivity.
Defined.


(* ------------------------------------------------------------------ *)
(** ** The aggregator and the backfill: one market at a time *)

Section Markets.
Import Aggregator Backfill Terms Totals More.

Variables (sym exch : string).

Lemma foreign_not_selected (since : JsNum) (t : Trade) :
  foreign sym exch t -> selected sym exch since t = false.
Proof.
  unfold selected. intros [H | H]; apply String.eqb_neq in H; rewrite H.
  - reflexivity.
  - now rewrite andb_false_r.
Qed.

Lemma select_skips_foreign (since : JsNum) (before other later : Table) :
  Forall (foreign sym exch) other ->
  select_trades sym exch since (before ++ other ++ later)
  = select_trades sym exch since (before ++ later).
Proof.
  intros H. unfold select_trades. rewrite !filter_app. f_equal.
  replace (filter (selected sym exch since) other) with (@nil Trade); [reflexivity|].
  symmetry. induction H as [|t other Ht _ IH]; cbn [filter]; [reflexivity|].
  now rewrite (foreign_not_selected since Ht).
Qed.

(** X17.  Markets do not mix.  Rows of another symbol or of another
    exchange, wherever they stand in the table, change nothing in the
    clusters of a symbol and an exchange; the names are compared
    exactly, so a row stored under [btcusdt] is not counted for
    [BTCUSDT]. *)
Theorem other_markets_are_ignored (now : Z) (periodMs bucketSize limit : JsNum)
    (before other later : Table)
    (Hother : Forall (foreign sym exch) other) :
  computeClusters now (before ++ other ++ later) sym exch periodMs bucketSize limit
  = computeClusters now (before ++ later) sym exch periodMs bucketSize limit.
Proof.
  unfold computeClusters. now rewrite select_skips_foreign.
Qed.

(** X18.  A backfill for one market leaves the clusters of every other
    market as they were: whatever the network answers and however the
    call ends, [computeClusters] for a symbol or an exchange other than
    the requested ones gives the same result on the table after the
    call as on the table before it. *)
Theorem backfill_leaves_other_markets_alone (env : Env) (b : Body) (w : World)
    (now : Z) (periodMs bucketSize limit : JsNum)
    (Hother : present (b_symbol b) <> Some sym \/ present (b_exchange b) <> Some exch) :
  computeClusters now (db (snd (backfill env b w))) sym exch periodMs bucketSize limit
  = computeClusters now (db w) sym exch periodMs bucketSize limit.
Proof.
  destruct (grows_appends (backfill_grows env b w)) as (added & -> & HP & _).
  unfold computeClusters.
  rewrite <- (app_nil_r added), select_skips_foreign, app_nil_r; [reflexivity|].
  apply Forall_forall. intros t Ht.
  destruct (proj1 (Forall_forall _ _) HP t Ht) as [Hs Hx].
  destruct Hother as [H | H]; [left | right]; intros E; apply H; congruence.
Qed.

End Markets.

Lemma other_markets_are_ignored_witness :
  let stored := mkTrade "a" "binance" "BTCUSDT" (Fin 100) (Fin 5) buy (of_Z 900) in
  let other := [mkTrade "b" "binance" "btcusdt" (Fin 100) (Fin 7) buy (of_Z 950);
                mkTrade "c" "okx" "BTCUSDT" (Fin 100) (Fin 9) sell (of_Z 960)]%string in
  Forall (Totals.foreign "BTCUSDT" "binance") other /\
  Aggregator.computeClusters 1000 ([stored] ++ other ++ []) "BTCUSDT" "binance"
    (of_Z 500) (Fin 1) (of_Z 50)
  = [Aggregator.mkBucket (Fin 100) (Fin 5) (Fin 900)].
Proof.
  intros stored other.
  assert (F : Forall (Totals.foreign "BTCUSDT" "binance") other).
  { constructor; [left; discriminate|]. constructor; [right; discriminate|].
    constructor. }
  split; [exact F|].
  rewrite (other_markets_are_ignored (sym := "BTCUSDT"%string) (exch := "binance"%string)
             1000 (of_Z 500) (Fin 1) (of_Z 50) [stored] [] F).
  vm_compute. reflexivity.
Defined.

Lemma backfill_leaves_other_markets_alone_witness :
  let env := Scenario.failing_at (5 * Scenario.hour) in
  let b := Backfill.mkBody (Some "ETHUSDT"%string) (Some "binance"%string)
             (JNum (of_Z Scenario.hour)) (JNum (of_Z (3 * Scenario.hour))) in
  let w := Backfill.mkWorld
             [mkTrade "a" "binance" "BTCUSDT" (Fin 100) (Fin 5) buy (of_Z 900)]%string
             (4 * Scenario.hour) 0 0 [] in
  (Backfill.present (Backfill.b_symbol b) <> Some "BTCUSDT"%string \/
   Backfill.present (Backfill.b_exchange b) <> Some "binance"%string) /\
  Aggregator.computeClusters 1000 (Backfill.db (snd (Backfill.backfill env b w)))
    "BTCUSDT" "binance" (of_Z 500) (Fin 1) (of_Z 50)
  = [Aggregator.mkBucket (Fin 100) (Fin 5) (Fin 900)].
Proof.
  intros env b w.
  assert (H : Backfill.present (Backfill.b_symbol b) <> Some "BTCUSDT"%string \/
              Backfill.present (Backfill.b_exchange b) <> Some "binance"%string)
    by (left; discriminate).
  split; [exact H|].
  rewrite (@backfill_leaves_other_markets_alone "BTCUSDT"%string "binance"%string env b w 1000
             (of_Z 500) (Fin 1) (of_Z 50) H).
  vm_compute. reflexivity.
Defined.
